(** * Cookie descriptors of remix-server-runtime (cookies.ts)

    A shallow embedding of [packages/remix-server-runtime/cookies.ts]:
    the token codec ([encodeCookieValue], [decodeCookieValue]), the cookie
    descriptor built by [createCookieFactory] and the [isCookie] guard.

    The two third-party packages the file imports, [jose] and [cookie], are
    interfaces here (type classes [Jose] and [CookieLib]); what the
    development assumes of [jose] is collected in [JoseLaws].  JavaScript
    numbers are modelled by integers, strings by byte strings, a [Date] by
    its time value in milliseconds, or as an invalid date. *)

From Stdlib Require Import ZArith String Ascii List.
From stdpp Require Import base option list countable strings gmap.

Set Warnings "-register-all".
Local Open Scope Z_scope.

(** ** Dates *)

(** A [Date]: its time value in milliseconds, or an invalid date. *)
Inductive Date : Type :=
  | ValidDate (t : Z)
  | InvalidDate.

(** [new Date(t)] for a number [t]: a time value further than 8.64e15
    milliseconds from the epoch makes an invalid date. *)
Definition new_Date (t : Z) : Date :=
  if Z.abs t <=? 8640000000000000 then ValidDate t else InvalidDate.

(** ** JavaScript values *)

(** What [any] ranges over in this file: JSON data, plus [undefined],
    [Date] objects and functions (by name).  An object is the list of its
    own properties in insertion order. *)
Inductive JsVal : Type :=
  | VUndefined
  | VNull
  | VBool (b : bool)
  | VNum (n : Z)
  | VStr (s : string)
  | VDate (d : Date)
  | VFun (f : string)
  | VArr (items : list JsVal)
  | VObj (props : list (string * JsVal)).

(** A plain object, as the properties it owns. *)
Definition JsObject : Type := list (string * JsVal).

(** [o[k]]: the first property named [k]. *)
Fixpoint obj_get (k : string) (o : JsObject) : option JsVal :=
  match o with
  | [] => None
  | (k', v) :: o' => if String.eqb k k' then Some v else obj_get k o'
  end.

(** [{ ...o, k: v }]: an existing property keeps its place and takes the
    new value, a new one goes last. *)
Fixpoint obj_set (k : string) (v : JsVal) (o : JsObject) : JsObject :=
  match o with
  | [] => [(k, v)]
  | (k', v') :: o' =>
      if String.eqb k k' then (k', v) :: o' else (k', v') :: obj_set k v o'
  end.

Inductive JsType : Type :=
  | TUndefined | TObject | TBoolean | TNumber | TString | TFunction.

Definition JsType_eqb (a b : JsType) : bool :=
  match a, b with
  | TUndefined, TUndefined | TObject, TObject | TBoolean, TBoolean
  | TNumber, TNumber | TString, TString | TFunction, TFunction => true
  | _, _ => false
  end.

(** The [typeof] operator. *)
Definition typeof (v : JsVal) : JsType :=
  match v with
  | VUndefined => TUndefined
  | VNull => TObject
  | VBool _ => TBoolean
  | VNum _ => TNumber
  | VStr _ => TString
  | VDate _ => TObject
  | VFun _ => TFunction
  | VArr _ => TObject
  | VObj _ => TObject
  end.

(** [v.k] for the property names [isCookie] reads.  Only objects carry
    them; a function has its [name]. *)
Definition js_get (v : JsVal) (k : string) : JsVal :=
  match v with
  | VObj o => default VUndefined (obj_get k o)
  | VFun f => if String.eqb k "name" then VStr f else VUndefined
  | _ => VUndefined
  end.

(** ** Exceptions and the call log *)

(** A thrown value: a [TypeError], or one of jose's errors by its code. *)
Inductive Exn : Type :=
  | TypeError (msg : string)
  | JOSEError (code : string).

Inductive result (A : Type) : Type :=
  | Ok (a : A)
  | Throw (e : Exn).
Arguments Ok {A} a.
Arguments Throw {A} e.

(** The calls into jose a computation makes, in order. *)
Inductive JoseCall : Type :=
  | CallSign (key : list Byte.byte)
  | CallEncrypt (key : list Byte.byte)
  | CallUnsecuredEncode
  | CallVerify (jwt : string) (key : list Byte.byte)
  | CallDecrypt (jwt : string) (key : list Byte.byte)
  | CallUnsecuredDecode (jwt : string)
  | CallVerifyValue (jwt : JsVal) (key : list Byte.byte)
  | CallDecryptValue (jwt : JsVal) (key : list Byte.byte)
  | CallUnsecuredDecodeValue (jwt : JsVal).

(** An [async] body: the calls it made and how it settled. *)
Definition M (A : Type) : Type := list JoseCall * result A.

Definition ret {A} (a : A) : M A := ([], Ok a).

Definition bind {A B} (m : M A) (f : A -> M B) : M B :=
  match m with
  | (l, Ok a) => let '(l', r) := f a in (l ++ l', r)
  | (l, Throw e) => (l, Throw e)
  end.

(** [try { m } catch (e) { h e }] *)
Definition try_catch {A} (m : M A) (h : Exn -> M A) : M A :=
  match m with
  | (l, Throw e) => let '(l', r) := h e in (l ++ l', r)
  | (l, Ok a) => (l, Ok a)
  end.

(** One library call, logged. *)
Definition call {A} (c : JoseCall) (r : result A) : M A := ([c], r).

Definition lift {A} (r : result A) : M A := ([], r).

Definition calls {A} (m : M A) : list JoseCall := fst m.
Definition outcome {A} (m : M A) : result A := snd m.

Notation "'await' x <- m ; k" := (bind m (fun x => k))
  (at level 10, x name, m at level 100, k at level 200,
   format "'[v' 'await'  x  <-  m ; '/' k ']'").

(** ** Ambient inputs *)

(** What a call reads from its surroundings: the clock ([Date.now()], a
    time value in milliseconds) and the random bytes the encrypter
    draws. *)
Record Env : Type := {
  Date_now : Z;
  random_bytes : list Byte.byte
}.

(** [new TextEncoder().encode(s)] *)
Definition TextEncoder_encode (s : string) : list Byte.byte :=
  list_byte_of_string s.

(** ** The jose interface *)

Definition JWTPayload : Type := JsObject.

(** The state of a JWT builder ([SignJWT], [EncryptJWT], [UnsecuredJWT]). *)
Record ProduceJWT : Type := {
  jwt_payload : JWTPayload;
  jwt_protectedHeader : option JsObject
}.

(** What [jwtVerify] and [jwtDecrypt] resolve to. *)
Record JWTResult : Type := {
  payload : JWTPayload;
  protectedHeader : JsObject
}.

(** What [UnsecuredJWT.decode] returns. *)
Record UnsecuredResult : Type := {
  unsecured_payload : JWTPayload;
  unsecured_header : JsObject
}.

(** The three decoders stand for the library at the time of the call:
    besides the protection of a token they check its registered claims
    ([exp], [nbf]) against the clock, which is what [accepts_claims]
    names.  Their [jwt] parameter is typed as a string; the [_value]
    members are the same decoders handed a value that is none. *)
Class Jose : Type := {
  (** The builders' constructor: the claims set it starts from, or its
      exception. *)
  ProduceJWT_new : JsVal -> result JWTPayload;
  SignJWT_sign : ProduceJWT -> list Byte.byte -> result string;
  EncryptJWT_encrypt :
    ProduceJWT -> list Byte.byte -> list Byte.byte -> result string;
  UnsecuredJWT_encode : ProduceJWT -> string;
  jwtVerify : string -> list Byte.byte -> result JWTResult;
  jwtDecrypt : string -> list Byte.byte -> result JWTResult;
  UnsecuredJWT_decode : string -> result UnsecuredResult;
  (** The decoders' check of the registered claims of a claims set. *)
  accepts_claims : JWTPayload -> bool;
  jwtVerify_value : JsVal -> list Byte.byte -> result JWTResult;
  jwtDecrypt_value : JsVal -> list Byte.byte -> result JWTResult;
  UnsecuredJWT_decode_value : JsVal -> result UnsecuredResult
}.

(** [.setProtectedHeader(h)] *)
Definition setProtectedHeader (h : JsObject) (jwt : ProduceJWT) : ProduceJWT :=
  {| jwt_payload := jwt_payload jwt; jwt_protectedHeader := Some h |}.

(** Seconds since the epoch of a time value in milliseconds. *)
Definition epoch (ms : Z) : Z := ms / 1000.

(** Modelled from the spec: jose's [setIssuedAt] is not part of the
    repository; the tokens carry "an issued-at timestamp claim set to
    current time", the [iat] claim, in seconds. *)
Definition setIssuedAt (env : Env) (jwt : ProduceJWT) : ProduceJWT :=
  {| jwt_payload := obj_set "iat" (VNum (epoch (Date_now env))) (jwt_payload jwt);
     jwt_protectedHeader := jwt_protectedHeader jwt |}.

(** The object a [JWTResult]'s payload is, as a value. *)
Definition payload_value (r : JWTResult) : JsVal := VObj (payload r).

(** An [UnsecuredResult] as a value: [{ payload, header }]. *)
Definition unsecured_result_value (r : UnsecuredResult) : JsVal :=
  VObj [("payload", VObj (unsecured_payload r));
        ("header", VObj (unsecured_header r))].

(** ** The cookie interface *)

Inductive SameSite : Type :=
  | SameSiteTrue | SameSiteFalse | SameSiteLax | SameSiteStrict | SameSiteNone.

(** An optional property of an options object: not there, there and
    [undefined], or there with a value. *)
Inductive Attr (A : Type) : Type :=
  | Missing
  | Undefined
  | Defined (a : A).
Arguments Missing {A}.
Arguments Undefined {A}.
Arguments Defined {A} a.

(** Reading the property: [undefined] unless it has a value. *)
Definition attr_value {A} (x : Attr A) : option A :=
  match x with
  | Defined a => Some a
  | _ => None
  end.

(** [CookieParseOptions & CookieSerializeOptions]; a function is named. *)
Record CookieAttributes : Type := {
  opt_decode : Attr string;
  opt_domain : Attr string;
  opt_encode : Attr string;
  opt_expires : Attr Date;
  opt_httpOnly : Attr bool;
  opt_maxAge : Attr Z;
  opt_path : Attr string;
  opt_sameSite : Attr SameSite;
  opt_secure : Attr bool
}.

(** [{}] *)
Definition no_attributes : CookieAttributes :=
  {| opt_decode := Missing; opt_domain := Missing; opt_encode := Missing;
     opt_expires := Missing; opt_httpOnly := Missing; opt_maxAge := Missing;
     opt_path := Missing; opt_sameSite := Missing; opt_secure := Missing |}.

(** One property of [{ ...base, ...over }]: a property [over] has, even
    as [undefined], replaces that of [base]. *)
Definition or_else {A} (over base : Attr A) : Attr A :=
  match over with
  | Missing => base
  | _ => over
  end.

(** [{ ...base, ...over }] *)
Definition spread (base over : CookieAttributes) : CookieAttributes :=
  {| opt_decode := or_else (opt_decode over) (opt_decode base);
     opt_domain := or_else (opt_domain over) (opt_domain base);
     opt_encode := or_else (opt_encode over) (opt_encode base);
     opt_expires := or_else (opt_expires over) (opt_expires base);
     opt_httpOnly := or_else (opt_httpOnly over) (opt_httpOnly base);
     opt_maxAge := or_else (opt_maxAge over) (opt_maxAge base);
     opt_path := or_else (opt_path over) (opt_path base);
     opt_sameSite := or_else (opt_sameSite over) (opt_sameSite base);
     opt_secure := or_else (opt_secure over) (opt_secure base) |}.

(** [CookieOptions]: the attributes and [CookieSecureOptions]. *)
Record CookieOptions : Type := {
  opt_secrets : option (list string);
  opt_encrypt : option bool;
  opt_attributes : CookieAttributes
}.

Class CookieLib : Type := {
  (** [parse(header, options)]: raw value by cookie name. *)
  cookie_parse : string -> CookieAttributes -> gmap string string;
  (** [serialize(name, value, options)]: the [Set-Cookie] header. *)
  cookie_serialize : string -> string -> CookieAttributes -> result string
}.

(** ** Diagnostics *)

Record Diagnostics : Type := {
  alreadyWarned : gset string;
  console : list string
}.

(** Modelled from the spec: [warnOnce] of [./warnings] is not under src;
    it is the "warn once per distinct message" facility, which emits when
    its condition is false and the message was not emitted before. *)
Definition warnOnce (condition : bool) (message : string) (d : Diagnostics)
    : Diagnostics :=
  if condition then d
  else if bool_decide (message ∈ alreadyWarned d) then d
  else {| alreadyWarned := {[message]} ∪ alreadyWarned d;
          console := console d ++ [message] |}.

Definition dquote : string := String (ascii_of_nat 34) EmptyString.

Definition warnOnceAboutExpiresCookie (name : string) (expires : option Date)
    (d : Diagnostics) : Diagnostics :=
  warnOnce (negb (bool_decide (is_Some expires)))
    ("The " +:+ dquote +:+ name +:+ dquote +:+ " cookie has an " +:+ dquote
       +:+ "expires" +:+ dquote +:+ " property set. "
       +:+ "This will cause the expires value to not be updated when the session is committed. "
       +:+ "Instead, you should set the expires value when serializing the cookie. "
       +:+ "You can use `commitSession(session, { expires })` if using a session storage object, "
       +:+ "or `cookie.serialize(" +:+ dquote +:+ "value" +:+ dquote
       +:+ ", { expires })` if you're using the cookie directly.")
    d.

(** ** The cookie object *)

(** The [Cookie] object: two plain getters, one that reads the clock, and
    two [async] methods. *)
Record Cookie : Type := {
  name : string;
  isSigned : bool;
  expires : Env -> option Date;
  parse : option string -> CookieAttributes -> M JsVal;
  serialize : JsVal -> CookieAttributes -> Env -> M string
}.

Definition CreateCookieFunction : Type :=
  string -> CookieOptions -> Diagnostics -> Cookie * Diagnostics.

(** [!cookieHeader]: [null] and the empty string are falsy. *)
Definition not_header (cookieHeader : option string) : bool :=
  match cookieHeader with
  | None => true
  | Some h => String.eqb h ""
  end.

(** ** The token codec *)

Section Cookies.
Context {jose : Jose} {cookie : CookieLib}.

(** [{ alg: "PBES2-HS512+A256KW", enc: "A256GCM" }] *)
Definition protected_header : JsObject :=
  [("alg", VStr "PBES2-HS512+A256KW"); ("enc", VStr "A256GCM")].

Definition encodeCookieValue (value : JsVal) (secrets : list string)
    (encrypt : bool) (env : Env) : M string :=
  if (0 <? length secrets)%nat then
    if encrypt then
      await claims <- lift (ProduceJWT_new value);
      let jwt :=
        setIssuedAt env
          (setProtectedHeader protected_header
             {| jwt_payload := claims; jwt_protectedHeader := None |}) in
      let key := TextEncoder_encode (default "" (secrets !! 0%nat)) in
      call (CallEncrypt key) (EncryptJWT_encrypt jwt key (random_bytes env))
    else
      await claims <- lift (ProduceJWT_new value);
      let jwt :=
        setIssuedAt env
          (setProtectedHeader protected_header
             {| jwt_payload := claims; jwt_protectedHeader := None |}) in
      let key := TextEncoder_encode (default "" (secrets !! 0%nat)) in
      call (CallSign key) (SignJWT_sign jwt key)
  else
    await claims <- lift (ProduceJWT_new value);
    let jwt :=
      setIssuedAt env {| jwt_payload := claims; jwt_protectedHeader := None |} in
    call CallUnsecuredEncode (Ok (UnsecuredJWT_encode jwt)).

(** One turn of the loop over the secrets: [Some v] when the body
    returned [v], [None] when the exception was caught and the loop goes
    on. *)
Definition try_secret (value : string) (secret : string) (decrypt : bool)
    : M (option JsVal) :=
  let key := TextEncoder_encode secret in
  if decrypt then
    try_catch
      (await r <- call (CallDecrypt value key) (jwtDecrypt value key);
       ret (Some (payload_value r)))
      (fun _ => ret None)
  else
    try_catch
      (await r <- call (CallVerify value key) (jwtVerify value key);
       ret (Some (payload_value r)))
      (fun _ => ret None).

(** [for (let secret of secrets) { ... }] *)
Fixpoint for_secrets (value : string) (secrets : list string)
    (decrypt : bool) : M (option JsVal) :=
  match secrets with
  | [] => ret None
  | secret :: rest =>
      await returned <- try_secret value secret decrypt;
      match returned with
      | Some v => ret (Some v)
      | None => for_secrets value rest decrypt
      end
  end.

Definition decodeCookieValue (value : string) (secrets : list string)
    (decrypt : bool) : M JsVal :=
  await returned <-
    (if (0 <? length secrets)%nat
     then for_secrets value secrets decrypt
     else ret None);
  match returned with
  | Some v => ret v
  | None =>
      await r <- call (CallUnsecuredDecode value) (UnsecuredJWT_decode value);
      ret (unsecured_result_value r)
  end.

(** [decodeCookieValue] handed a [value] that is not a string: the same
    body, over the decoders' answers to such a value. *)
Definition try_secret_value (value : JsVal) (secret : string) (decrypt : bool)
    : M (option JsVal) :=
  let key := TextEncoder_encode secret in
  if decrypt then
    try_catch
      (await r <- call (CallDecryptValue value key)
                       (jwtDecrypt_value value key);
       ret (Some (payload_value r)))
      (fun _ => ret None)
  else
    try_catch
      (await r <- call (CallVerifyValue value key)
                       (jwtVerify_value value key);
       ret (Some (payload_value r)))
      (fun _ => ret None).

Fixpoint for_secrets_value (value : JsVal) (secrets : list string)
    (decrypt : bool) : M (option JsVal) :=
  match secrets with
  | [] => ret None
  | secret :: rest =>
      await returned <- try_secret_value value secret decrypt;
      match returned with
      | Some v => ret (Some v)
      | None => for_secrets_value value rest decrypt
      end
  end.

Definition decodeCookieValue_value (value : JsVal) (secrets : list string)
    (decrypt : bool) : M JsVal :=
  await returned <-
    (if (0 <? length secrets)%nat
     then for_secrets_value value secrets decrypt
     else ret None);
  match returned with
  | Some v => ret v
  | None =>
      await r <- call (CallUnsecuredDecodeValue value)
                      (UnsecuredJWT_decode_value value);
      ret (unsecured_result_value r)
  end.

(** [decodeCookieValue(value, secrets, decrypt)] for whatever [value]
    the caller has at hand. *)
Definition decodeCookieValue_any (value : JsVal) (secrets : list string)
    (decrypt : bool) : M JsVal :=
  match value with
  | VStr s => decodeCookieValue s secrets decrypt
  | _ => decodeCookieValue_value value secrets decrypt
  end.

(** ** The cookie descriptor *)

(** What a plain object inherits from [Object.prototype]: functions, and
    the prototype itself under [__proto__]. *)
Definition Object_prototype : JsObject :=
  [("constructor", VFun "Object");
   ("__defineGetter__", VFun "__defineGetter__");
   ("__defineSetter__", VFun "__defineSetter__");
   ("hasOwnProperty", VFun "hasOwnProperty");
   ("__lookupGetter__", VFun "__lookupGetter__");
   ("__lookupSetter__", VFun "__lookupSetter__");
   ("isPrototypeOf", VFun "isPrototypeOf");
   ("propertyIsEnumerable", VFun "propertyIsEnumerable");
   ("toString", VFun "toString");
   ("valueOf", VFun "valueOf");
   ("__proto__", VObj []);
   ("toLocaleString", VFun "toLocaleString")].

(** The object the cookie parser returns is a plain object whose own
    properties are the cookies of the header.  [name in cookies]: an own
    property or an inherited one. *)
Definition js_in (name : string) (cookies : gmap string string) : bool :=
  bool_decide (is_Some (cookies !! name))
  || bool_decide (is_Some (obj_get name Object_prototype)).

(** [cookies[name]] *)
Definition js_prop (name : string) (cookies : gmap string string) : JsVal :=
  match cookies !! name with
  | Some raw => VStr raw
  | None => default VUndefined (obj_get name Object_prototype)
  end.

(** [{ path: "/", sameSite: "lax", ...cookieOptions }] without [secrets]
    and [encrypt]: the [options] the descriptor keeps. *)
Definition descriptor_options (cookieOptions : CookieOptions)
    : CookieAttributes :=
  spread
    {| opt_decode := Missing; opt_domain := Missing; opt_encode := Missing;
       opt_expires := Missing; opt_httpOnly := Missing; opt_maxAge := Missing;
       opt_path := Defined "/"; opt_sameSite := Defined SameSiteLax;
       opt_secure := Missing |}
    (opt_attributes cookieOptions).

Definition createCookieFactory (_ : unit) : CreateCookieFunction :=
  fun name cookieOptions d =>
    let secrets := default [] (opt_secrets cookieOptions) in
    let encrypt := default false (opt_encrypt cookieOptions) in
    let options := descriptor_options cookieOptions in
    let d' :=
      warnOnceAboutExpiresCookie name (attr_value (opt_expires options)) d in
    ({| name := name;
        isSigned := (0 <? length secrets)%nat;
        expires := fun env =>
          match opt_maxAge options with
          | Defined maxAge => Some (new_Date (Date_now env + maxAge * 1000))
          | _ => attr_value (opt_expires options)
          end;
        parse := fun cookieHeader parseOptions =>
          if not_header cookieHeader then ret VNull
          else
            let cookies :=
              cookie_parse (default "" cookieHeader)
                (spread options parseOptions) in
            if js_in name cookies then
              match js_prop name cookies with
              | VStr "" => ret (VStr "")
              | value => decodeCookieValue_any value secrets encrypt
              end
            else ret VNull;
        serialize := fun value serializeOptions env =>
          await raw <-
            (match value with
             | VStr "" => ret ""
             | _ => encodeCookieValue value secrets encrypt env
             end);
          lift (cookie_serialize name raw (spread options serializeOptions))
     |}, d').

(** ** Vocabulary of the statements *)

(** What the library answers when [value] is tried under [secret]. *)
Definition secret_answer (value : string) (decrypt : bool) (secret : string)
    : result JWTResult :=
  if decrypt then jwtDecrypt value (TextEncoder_encode secret)
  else jwtVerify value (TextEncoder_encode secret).

(** The library call that tries [value] under [secret]. *)
Definition secret_call (value : string) (decrypt : bool) (secret : string)
    : JoseCall :=
  if decrypt then CallDecrypt value (TextEncoder_encode secret)
  else CallVerify value (TextEncoder_encode secret).

Definition rejected (value : string) (decrypt : bool) (secret : string)
    : Prop :=
  exists e, secret_answer value decrypt secret = Throw e.

End Cookies.

(** The cookie object as [isCookie] sees it: each property read at [env]. *)
Definition Cookie_value (env : Env) (c : Cookie) : JsVal :=
  VObj [("name", VStr (name c));
        ("isSigned", VBool (isSigned c));
        ("expires", match expires c env with
                    | Some date => VDate date
                    | None => VUndefined
                    end);
        ("parse", VFun "parse");
        ("serialize", VFun "serialize")].

(** [object != null] *)
Definition not_nullish (v : JsVal) : bool :=
  match v with
  | VUndefined | VNull => false
  | _ => true
  end.

Definition isCookie (object : JsVal) : bool :=
  not_nullish object
  && JsType_eqb (typeof (js_get object "name")) TString
  && JsType_eqb (typeof (js_get object "isSigned")) TBoolean
  && JsType_eqb (typeof (js_get object "parse")) TFunction
  && JsType_eqb (typeof (js_get object "serialize")) TFunction.

(** ** JSON data *)

(** Values that [JSON.stringify] followed by [JSON.parse] gives back as
    they are: [null], booleans, numbers, strings, and arrays and objects
    of such. *)
Fixpoint json_value (v : JsVal) : bool :=
  match v with
  | VNull | VBool _ | VNum _ | VStr _ => true
  | VUndefined | VDate _ | VFun _ => false
  | VArr items => forallb json_value items
  | VObj props => forallb (fun kv => let '(_, x) := kv in json_value x) props
  end.

Definition json_object (o : JsObject) : bool := json_value (VObj o).

(** ** What is assumed of jose

    The contract of the library, as far as the statements below rely on
    it.  The constructor keeps an object as the claims set.  A token the
    encrypter issued under a key for claims that are JSON data is read by
    the decrypter under that key as those claims when its check of the
    registered claims accepts them, and is refused when it does not; so
    for the unsecured encoder and decoder.  Nothing is assumed of the
    signer. *)
Class JoseLaws (jose : Jose) : Prop := {
  new_of_object : forall o, ProduceJWT_new (VObj o) = Ok o;
  decrypt_encrypt : forall jwt key random t,
    EncryptJWT_encrypt jwt key random = Ok t ->
    json_object (jwt_payload jwt) = true ->
    if accepts_claims (jwt_payload jwt)
    then exists r, jwtDecrypt t key = Ok r /\ payload r = jwt_payload jwt
    else exists e, jwtDecrypt t key = Throw e;
  unsecured_decode_encode : forall jwt,
    json_object (jwt_payload jwt) = true ->
    if accepts_claims (jwt_payload jwt)
    then exists r, UnsecuredJWT_decode (UnsecuredJWT_encode jwt) = Ok r
                   /\ unsecured_payload r = jwt_payload jwt
    else exists e, UnsecuredJWT_decode (UnsecuredJWT_encode jwt) = Throw e
}.

(** ** An implementation of the interfaces without cryptography

    Tokens that spell out the key and the claims (a tag letter, then the
    binary numeral of the content's code).  It follows the library in what
    the statements depend on: the constructor takes objects only; claims
    travel as JSON; the signer takes the HMAC algorithms and the encrypter
    the password-based ones; the decoders refuse a value that is not a
    string and check [iat], [nbf] and [exp] against their clock.  It shows
    that the assumptions of [JoseLaws] can be met, and serves to evaluate
    the codec on concrete inputs. *)
Module Plain.

Definition Tree : Type := gen_tree (Z + string).

Fixpoint to_tree (v : JsVal) : Tree :=
  match v with
  | VUndefined => GenNode 0 []
  | VNull => GenNode 1 []
  | VBool b => GenNode (if b then 2 else 3) []
  | VNum n => GenNode 4 [GenLeaf (inl n)]
  | VStr s => GenNode 5 [GenLeaf (inr s)]
  | VDate (ValidDate t) => GenNode 6 [GenLeaf (inl t)]
  | VDate InvalidDate => GenNode 11 []
  | VFun f => GenNode 7 [GenLeaf (inr f)]
  | VArr items => GenNode 8 (map to_tree items)
  | VObj props =>
      GenNode 9
        (map (fun kv => let '(k, v) := kv in
                        GenNode 10 [GenLeaf (inr k); to_tree v]) props)
  end.

Fixpoint of_tree (t : Tree) : option JsVal :=
  match t with
  | GenNode 0 [] => Some VUndefined
  | GenNode 1 [] => Some VNull
  | GenNode 2 [] => Some (VBool true)
  | GenNode 3 [] => Some (VBool false)
  | GenNode 4 [GenLeaf (inl n)] => Some (VNum n)
  | GenNode 5 [GenLeaf (inr s)] => Some (VStr s)
  | GenNode 6 [GenLeaf (inl t)] => Some (VDate (ValidDate t))
  | GenNode 11 [] => Some (VDate InvalidDate)
  | GenNode 7 [GenLeaf (inr f)] => Some (VFun f)
  | GenNode 8 ts => VArr <$> mapM of_tree ts
  | GenNode 9 ts =>
      VObj <$>
        mapM (fun t =>
                match t with
                | GenNode 10 [GenLeaf (inr k); tv] => pair k <$> of_tree tv
                | _ => None
                end) ts
  | _ => None
  end.

Fixpoint pos_bits (p : positive) : string :=
  match p with
  | xH => ""
  | xO p' => String "0" (pos_bits p')
  | xI p' => String "1" (pos_bits p')
  end.

Fixpoint bits_pos (s : string) : option positive :=
  match s with
  | EmptyString => Some xH
  | String c s' =>
      if Ascii.eqb c "0" then xO <$> bits_pos s'
      else if Ascii.eqb c "1" then xI <$> bits_pos s'
      else None
  end.

Definition pack (t : Tree) : string := pos_bits (encode t).
Definition unpack (s : string) : option Tree := bits_pos s ≫= decode.

Definition key_leaf (key : list Byte.byte) : Tree :=
  GenLeaf (inr (string_of_list_byte key)).

Definition object_tree (o : JsObject) : Tree := to_tree (VObj o).

Definition claims_of (t : Tree) : option JsObject :=
  match of_tree t with
  | Some (VObj o) => Some o
  | _ => None
  end.

(** The last [width] decimal digits of [n]. *)
Fixpoint digits (width : nat) (n : Z) : string :=
  match width with
  | O => ""
  | S w =>
      digits w (n / 10)
        +:+ String (ascii_of_nat (48 + Z.to_nat (n mod 10))) ""
  end.

(** [date.toISOString()] of a valid date. *)
Definition toISOString (t : Z) : string :=
  let days := t / 86400000 in
  let ms := t mod 86400000 in
  let z := days + 719468 in
  let era := z / 146097 in
  let doe := z mod 146097 in
  let yoe := (doe - doe / 1460 + doe / 36524 - doe / 146096) / 365 in
  let doy := doe - (365 * yoe + yoe / 4 - yoe / 100) in
  let mp := (5 * doy + 2) / 153 in
  let day := doy - (153 * mp + 2) / 5 + 1 in
  let month := if mp <? 10 then mp + 3 else mp - 9 in
  let year := yoe + era * 400 + (if month <=? 2 then 1 else 0) in
  (if (0 <=? year) && (year <=? 9999) then digits 4 year
   else (if year <? 0 then "-" else "+") +:+ digits 6 (Z.abs year))
    +:+ "-" +:+ digits 2 month +:+ "-" +:+ digits 2 day
    +:+ "T" +:+ digits 2 (ms / 3600000)
    +:+ ":" +:+ digits 2 (ms / 60000 mod 60)
    +:+ ":" +:+ digits 2 (ms / 1000 mod 60)
    +:+ "." +:+ digits 3 (ms mod 1000) +:+ "Z".

(** [JSON.parse(JSON.stringify(v))]; [None] where [JSON.stringify] gives
    [undefined]. *)
Fixpoint JSON_image (v : JsVal) : option JsVal :=
  match v with
  | VUndefined | VFun _ => None
  | VNull => Some VNull
  | VBool b => Some (VBool b)
  | VNum n => Some (VNum n)
  | VStr s => Some (VStr s)
  | VDate (ValidDate t) => Some (VStr (toISOString t))
  | VDate InvalidDate => Some VNull
  | VArr items =>
      Some (VArr (map (fun x => default VNull (JSON_image x)) items))
  | VObj props =>
      Some (VObj (omap (fun kv => let '(k, x) := kv in
                                  pair k <$> JSON_image x) props))
  end.

Definition JSON_object (o : JsObject) : JsObject :=
  omap (fun kv => let '(k, x) := kv in pair k <$> JSON_image x) o.

(** The check of the registered claims at the clock [now], in seconds:
    [iat], [nbf] and [exp] are numbers when present, [nbf] is not in the
    future and [exp] not reached. *)
Inductive Claim : Type :=
  | NoClaim
  | NumberClaim (n : Z)
  | OtherClaim.

Definition claim (k : string) (claims : JWTPayload) : Claim :=
  match obj_get k claims with
  | None => NoClaim
  | Some (VNum n) => NumberClaim n
  | Some _ => OtherClaim
  end.

Definition claims_error (now : Z) (claims : JWTPayload) : option Exn :=
  let invalid := Some (JOSEError "ERR_JWT_CLAIM_VALIDATION_FAILED") in
  let check_exp :=
    match claim "exp" claims with
    | OtherClaim => invalid
    | NumberClaim exp =>
        if exp <=? now then Some (JOSEError "ERR_JWT_EXPIRED") else None
    | NoClaim => None
    end in
  match claim "iat" claims with
  | OtherClaim => invalid
  | _ =>
      match claim "nbf" claims with
      | OtherClaim => invalid
      | NumberClaim nbf => if now <? nbf then invalid else check_exp
      | NoClaim => check_exp
      end
  end.

Definition claims_valid (now : Z) (claims : JWTPayload) : bool :=
  match claims_error now claims with
  | None => true
  | Some _ => false
  end.

Definition algorithm (h : JsObject) (k : string) : string :=
  match obj_get k h with
  | Some (VStr a) => a
  | _ => ""
  end.

Definition one_of (a : string) (l : list string) : bool :=
  existsb (String.eqb a) l.

(** [SignJWT#sign] under a byte-array key: the HMAC algorithms. *)
Definition sign (jwt : ProduceJWT) (key : list Byte.byte) : result string :=
  match jwt_protectedHeader jwt with
  | None => Throw (JOSEError "ERR_JWS_INVALID")
  | Some h =>
      if one_of (algorithm h "alg") ["HS256"; "HS384"; "HS512"] then
        Ok (String "S"
              (pack (GenNode 0 [key_leaf key; object_tree (JSON_object h);
                                object_tree (JSON_object (jwt_payload jwt))])))
      else Throw (TypeError "the key does not fit the algorithm")
  end.

Definition verify (now : Z) (jwt : string) (key : list Byte.byte)
    : result JWTResult :=
  match jwt with
  | String "S" body =>
      match unpack body with
      | Some (GenNode 0 [GenLeaf (inr k); th; tp]) =>
          if String.eqb k (string_of_list_byte key) then
            match claims_of th, claims_of tp with
            | Some h, Some p =>
                match claims_error now p with
                | None => Ok {| payload := p; protectedHeader := h |}
                | Some e => Throw e
                end
            | _, _ => Throw (JOSEError "ERR_JWS_INVALID")
            end
          else Throw (JOSEError "ERR_JWS_SIGNATURE_VERIFICATION_FAILED")
      | _ => Throw (JOSEError "ERR_JWS_INVALID")
      end
  | _ => Throw (JOSEError "ERR_JWS_INVALID")
  end.

(** [EncryptJWT#encrypt] under a byte-array key: the password-based key
    wrapping algorithms, with a content encryption algorithm. *)
Definition encrypt (jwt : ProduceJWT) (key random : list Byte.byte)
    : result string :=
  match jwt_protectedHeader jwt with
  | None => Throw (JOSEError "ERR_JWE_INVALID")
  | Some h =>
      if one_of (algorithm h "alg")
           ["PBES2-HS256+A128KW"; "PBES2-HS384+A192KW"; "PBES2-HS512+A256KW"]
         && one_of (algorithm h "enc")
              ["A128GCM"; "A192GCM"; "A256GCM";
               "A128CBC-HS256"; "A192CBC-HS384"; "A256CBC-HS512"]
      then
        Ok (String "E"
              (pack (GenNode 1 [key_leaf key; key_leaf random;
                                object_tree (JSON_object h);
                                object_tree (JSON_object (jwt_payload jwt))])))
      else Throw (JOSEError "ERR_JOSE_NOT_SUPPORTED")
  end.

Definition decrypt (now : Z) (jwt : string) (key : list Byte.byte)
    : result JWTResult :=
  match jwt with
  | String "E" body =>
      match unpack body with
      | Some (GenNode 1 [GenLeaf (inr k); _; th; tp]) =>
          if String.eqb k (string_of_list_byte key) then
            match claims_of th, claims_of tp with
            | Some h, Some p =>
                match claims_error now p with
                | None => Ok {| payload := p; protectedHeader := h |}
                | Some e => Throw e
                end
            | _, _ => Throw (JOSEError "ERR_JWE_INVALID")
            end
          else Throw (JOSEError "ERR_JWE_DECRYPTION_FAILED")
      | _ => Throw (JOSEError "ERR_JWE_INVALID")
      end
  | _ => Throw (JOSEError "ERR_JWE_INVALID")
  end.

Definition unsecured_encode (jwt : ProduceJWT) : string :=
  String "U" (pack (object_tree (JSON_object (jwt_payload jwt)))).

Definition unsecured_decode (now : Z) (jwt : string) : result UnsecuredResult :=
  match jwt with
  | String "U" body =>
      match unpack body ≫= claims_of with
      | Some p =>
          match claims_error now p with
          | None =>
              Ok {| unsecured_payload := p;
                    unsecured_header := [("alg", VStr "none")] |}
          | Some e => Throw e
          end
      | None => Throw (JOSEError "ERR_JWT_INVALID")
      end
  | _ => Throw (JOSEError "ERR_JWT_INVALID")
  end.

Definition claims_set (v : JsVal) : result JWTPayload :=
  match v with
  | VObj o => Ok o
  | _ => Throw (TypeError "JWT Claims Set MUST be an object")
  end.

(** The library with its decoders at the clock [now], in seconds. *)
Definition jose_at (now : Z) : Jose :=
  {| ProduceJWT_new := claims_set;
     SignJWT_sign := sign;
     EncryptJWT_encrypt := encrypt;
     UnsecuredJWT_encode := unsecured_encode;
     jwtVerify := verify now;
     jwtDecrypt := decrypt now;
     UnsecuredJWT_decode := unsecured_decode now;
     accepts_claims := claims_valid now;
     jwtVerify_value := fun _ _ => Throw (JOSEError "ERR_JWS_INVALID");
     jwtDecrypt_value := fun _ _ => Throw (JOSEError "ERR_JWE_INVALID");
     UnsecuredJWT_decode_value := fun _ => Throw (JOSEError "ERR_JWT_INVALID")
  |}.

(** The library five seconds after the epoch. *)
Definition jose : Jose := jose_at 5.

(** The text before the first [=] and the text after it. *)
Fixpoint split_pair (s : string) : option (string * string) :=
  match s with
  | EmptyString => None
  | String c s' =>
      if Ascii.eqb c "=" then Some (EmptyString, s')
      else match split_pair s' with
           | Some (k, v) => Some (String c k, v)
           | None => None
           end
  end.

(** A header of one [name=value] pair. *)
Definition parse_header (header : string) (_ : CookieAttributes)
    : gmap string string :=
  match split_pair header with
  | Some (k, v) => {[ k := v ]}
  | None => ∅
  end.

Definition serialize_header (name value : string) (_ : CookieAttributes)
    : result string :=
  if String.eqb name "" then Throw (TypeError "argument name is invalid")
  else Ok (name +:+ "=" +:+ value).

Definition cookie : CookieLib :=
  {| cookie_parse := parse_header; cookie_serialize := serialize_header |}.

End Plain.


(** ** Inputs used in the examples *)

Definition env0 : Env := {| Date_now := 5000; random_bytes := [] |}.
Definition env1 : Env := {| Date_now := 6000; random_bytes := [] |}.

(** [{ uid: 42 }] *)
Definition uid42 : JsObject := [("uid", VNum 42)].

Definition no_options : CookieOptions :=
  {| opt_secrets := None; opt_encrypt := None;
     opt_attributes := no_attributes |}.

Definition no_diagnostics : Diagnostics :=
  {| alreadyWarned := ∅; console := [] |}.

Definition with_attributes (attributes : CookieAttributes) : CookieOptions :=
  {| opt_secrets := None; opt_encrypt := None; opt_attributes := attributes |}.

(** [{ maxAge: 3600, expires: new Date(77) }] and
    [{ maxAge: undefined, expires: new Date(77) }] *)
Definition rolling_options : CookieOptions :=
  with_attributes
    {| opt_decode := Missing; opt_domain := Missing; opt_encode := Missing;
       opt_expires := Defined (ValidDate 77); opt_httpOnly := Missing;
       opt_maxAge := Defined 3600; opt_path := Missing;
       opt_sameSite := Missing; opt_secure := Missing |}.
Definition fixed_options : CookieOptions :=
  with_attributes
    {| opt_decode := Missing; opt_domain := Missing; opt_encode := Missing;
       opt_expires := Defined (ValidDate 77); opt_httpOnly := Missing;
       opt_maxAge := Undefined; opt_path := Missing;
       opt_sameSite := Missing; opt_secure := Missing |}.

(** The token a settled encoding holds. *)
Definition token_of (m : M string) : string :=
  match outcome m with
  | Ok t => t
  | Throw _ => ""
  end.

(** [{ uid: 42, iat: 5 }] signed under [old] with HS256, as another
    issuer would; [{ uid: 42 }] encrypted under [old] by
    [encodeCookieValue], and unsecured. *)
Definition signed_uid42 : string :=
  token_of
    (lift (Plain.sign
             {| jwt_payload := [("uid", VNum 42); ("iat", VNum 5)];
                jwt_protectedHeader := Some [("alg", VStr "HS256")] |}
             (TextEncoder_encode "old"))).
Definition encrypted_uid42 : string :=
  token_of (@encodeCookieValue Plain.jose (VObj uid42) ["old"] true env0).
Definition unsecured_uid42 : string :=
  token_of (@encodeCookieValue Plain.jose (VObj uid42) [] false env0).

(** A descriptor over the implementation without cryptography. *)
Definition plain_cookie (name : string) (cookieOptions : CookieOptions)
    : Cookie :=
  (@createCookieFactory Plain.jose Plain.cookie tt name cookieOptions
     no_diagnostics).1.

(** ** The exported constructor, and further vocabulary *)

(** [export const createCookie = createCookieFactory();] *)
Definition createCookie {jose : Jose} {cookie : CookieLib}
    : CreateCookieFunction :=
  createCookieFactory tt.

(** [{ path: "/", sameSite: "lax" }], the attributes [createCookieFactory]
    puts under the caller's. *)
Definition cookie_defaults : CookieAttributes :=
  {| opt_decode := Missing; opt_domain := Missing; opt_encode := Missing;
     opt_expires := Missing; opt_httpOnly := Missing; opt_maxAge := Missing;
     opt_path := Defined "/"; opt_sameSite := Defined SameSiteLax;
     opt_secure := Missing |}.

Section Vocabulary.
Context {jose : Jose} {cookie : CookieLib}.

Definition accepted (value : string) (decrypt : bool) (secret : string)
    : Prop :=
  exists r, secret_answer value decrypt secret = Ok r.

(** What the library answers when asked to issue a token for the builder
    [jwt]: under the first secret when there is one, unsecured otherwise. *)
Definition issue (jwt : ProduceJWT) (secrets : list string) (encrypt : bool)
    (env : Env) : result string :=
  match secrets with
  | [] => Ok (UnsecuredJWT_encode jwt)
  | s0 :: _ =>
      if encrypt
      then EncryptJWT_encrypt jwt (TextEncoder_encode s0) (random_bytes env)
      else SignJWT_sign jwt (TextEncoder_encode s0)
  end.

(** The call that asks for it. *)
Definition issue_call (secrets : list string) (encrypt : bool) : JoseCall :=
  match secrets with
  | [] => CallUnsecuredEncode
  | s0 :: _ =>
      if encrypt then CallEncrypt (TextEncoder_encode s0)
      else CallSign (TextEncoder_encode s0)
  end.

(** A call [decodeCookieValue] may make for [value] under [secrets]. *)
Definition decode_call (value : string) (decrypt : bool)
    (secrets : list string) (c : JoseCall) : Prop :=
  c = CallUnsecuredDecode value
  \/ exists s, In s secrets /\ c = secret_call value decrypt s.

(** The cookie parser, under [options'], finds in a header the cookie
    serializer wrote for [name] under [options] the raw value it was
    given; such a header is not empty. *)
Definition reads_back (name : string) (options options' : CookieAttributes)
    : Prop :=
  forall raw header,
    cookie_serialize name raw options = Ok header ->
    header <> "" /\ cookie_parse header options' !! name = Some raw.

End Vocabulary.

(** [{ secrets: ["s1"] }] *)
Definition signing_options : CookieOptions :=
  {| opt_secrets := Some ["s1"]; opt_encrypt := None;
     opt_attributes := no_attributes |}.

(** [{ secrets: ["s1"], encrypt: true }] *)
Definition encrypting_options : CookieOptions :=
  {| opt_secrets := Some ["s1"]; opt_encrypt := Some true;
     opt_attributes := no_attributes |}.

(** [{ maxAge: 8640000000000 }], past the range of dates. *)
Definition distant_options : CookieOptions :=
  with_attributes
    {| opt_decode := Missing; opt_domain := Missing; opt_encode := Missing;
       opt_expires := Missing; opt_httpOnly := Missing;
       opt_maxAge := Defined 8640000000000; opt_path := Missing;
       opt_sameSite := Missing; opt_secure := Missing |}.

(** [{ uid: 42 }] stamped at [env0]. *)
Definition uid42_iat5 : JsObject := [("uid", VNum 42); ("iat", VNum 5)].

(** The claims [V] as they are handed to the library at [env]. *)
Definition stamped (env : Env) (V : JsObject) : JsObject :=
  obj_set "iat" (VNum (epoch (Date_now env))) V.



(** * Properties *)

(** ** The implementation without cryptography meets the contract *)

Lemma JsVal_nested_ind (P : JsVal -> Prop) :
  P VUndefined -> P VNull -> (forall b, P (VBool b)) -> (forall n, P (VNum n)) ->
  (forall s, P (VStr s)) -> (forall t, P (VDate t)) -> (forall f, P (VFun f)) ->
  (forall items, Forall P items -> P (VArr items)) ->
  (forall props, Forall (fun kv => P kv.2) props -> P (VObj props)) ->
  forall v, P v.
Proof.
  intros Hu Hn Hb Hz Hs Hd Hf Ha Ho.
  fix IH 1. intros [ | | b | n | s | t | f | items | props].
  - exact Hu.
  - exact Hn.
  - apply Hb.
  - apply Hz.
  - apply Hs.
  - apply Hd.
  - apply Hf.
  - apply Ha. induction items as [|v items IHitems]; constructor.
    + apply IH.
    + exact IHitems.
  - apply Ho. induction props as [|[k v] props IHprops]; constructor.
    + apply IH.
    + exact IHprops.
Qed.

Lemma of_to_tree (v : JsVal) : Plain.of_tree (Plain.to_tree v) = Some v.
Proof.
  induction v as [ | | [] | | | [t|] | | items IH | props IH ]
    using JsVal_nested_ind; try reflexivity.
  - cbn [Plain.to_tree Plain.of_tree].
    rewrite (proj2 (mapM_Some _ _ items)); [reflexivity|].
    induction IH; constructor; auto.
  - cbn [Plain.to_tree Plain.of_tree].
    rewrite (proj2 (mapM_Some _ _ props)); [reflexivity|].
    induction IH as [|[k v] props Hv _ IHprops]; constructor; auto.
    cbn in *. now rewrite Hv.
Qed.

Lemma bits_pos_bits (p : positive) : Plain.bits_pos (Plain.pos_bits p) = Some p.
Proof. induction p; cbn; [rewrite IHp..|]; reflexivity. Qed.

Lemma unpack_pack (t : Plain.Tree) : Plain.unpack (Plain.pack t) = Some t.
Proof.
  unfold Plain.unpack, Plain.pack. rewrite bits_pos_bits. cbn.
  apply decode_encode.
Qed.

Lemma claims_of_object_tree (o : JsObject) :
  Plain.claims_of (Plain.object_tree o) = Some o.
Proof. unfold Plain.claims_of, Plain.object_tree. now rewrite of_to_tree. Qed.

(** On JSON data the passage through JSON changes nothing. *)
Lemma JSON_image_json_value (v : JsVal) :
  json_value v = true -> Plain.JSON_image v = Some v.
Proof.
  induction v as [ | | b | n | s | t | f | items IH | props IH ]
    using JsVal_nested_ind; try reflexivity; try discriminate.
  - cbn [json_value Plain.JSON_image]. intros Hjson. do 2 f_equal.
    induction IH as [|v items Hv _ IHitems]; [reflexivity|].
    cbn in Hjson |- *. apply andb_true_iff in Hjson as [Hv' Hitems].
    now rewrite (Hv Hv'), (IHitems Hitems).
  - cbn [json_value Plain.JSON_image]. intros Hjson. do 2 f_equal.
    induction IH as [|[k v] props Hv _ IHprops]; [reflexivity|].
    cbn in Hjson, Hv |- *. apply andb_true_iff in Hjson as [Hv' Hprops].
    rewrite (Hv Hv'). cbn. now rewrite (IHprops Hprops).
Qed.

Lemma JSON_object_json_object (o : JsObject) :
  json_object o = true -> Plain.JSON_object o = o.
Proof.
  intros Hjson. apply JSON_image_json_value in Hjson.
  cbn [Plain.JSON_image] in Hjson. now injection Hjson.
Qed.

Lemma claims_valid_error now claims :
  Plain.claims_valid now claims = true ->
  Plain.claims_error now claims = None.
Proof.
  unfold Plain.claims_valid. now destruct (Plain.claims_error now claims).
Qed.

Lemma claims_invalid_error now claims :
  Plain.claims_valid now claims = false ->
  exists e, Plain.claims_error now claims = Some e.
Proof.
  unfold Plain.claims_valid.
  destruct (Plain.claims_error now claims) as [e|]; [eauto|discriminate].
Qed.

Lemma plain_laws now : JoseLaws (Plain.jose_at now).
Proof.
  split.
  - reflexivity.
  - intros jwt key rnd t.
    change (EncryptJWT_encrypt jwt key rnd) with (Plain.encrypt jwt key rnd).
    change (accepts_claims (jwt_payload jwt))
      with (Plain.claims_valid now (jwt_payload jwt)).
    change (jwtDecrypt t key) with (Plain.decrypt now t key).
    unfold Plain.encrypt.
    destruct (jwt_protectedHeader jwt) as [h|]; [|discriminate].
    destruct (_ && _); [|discriminate].
    intros [= <-] Hjson. rewrite (JSON_object_json_object _ Hjson).
    assert (Hdec : Plain.decrypt now
              (String "E"
                 (Plain.pack
                    (GenNode 1
                       [Plain.key_leaf key; Plain.key_leaf rnd;
                        Plain.object_tree (Plain.JSON_object h);
                        Plain.object_tree (jwt_payload jwt)]))) key
            = match Plain.claims_error now (jwt_payload jwt) with
              | None => Ok {| payload := jwt_payload jwt;
                              protectedHeader := Plain.JSON_object h |}
              | Some e => Throw e
              end).
    { unfold Plain.decrypt. rewrite unpack_pack. unfold Plain.key_leaf.
      cbv beta match.
      now rewrite String.eqb_refl, !claims_of_object_tree. }
    rewrite Hdec.
    destruct (Plain.claims_valid now (jwt_payload jwt)) eqn:Hvalid.
    + rewrite (claims_valid_error _ _ Hvalid). eauto.
    + destruct (claims_invalid_error _ _ Hvalid) as [e ->]. eauto.
  - intros jwt Hjson.
    change (UnsecuredJWT_decode (UnsecuredJWT_encode jwt))
      with (Plain.unsecured_decode now (Plain.unsecured_encode jwt)).
    change (accepts_claims (jwt_payload jwt))
      with (Plain.claims_valid now (jwt_payload jwt)).
    unfold Plain.unsecured_decode, Plain.unsecured_encode.
    rewrite unpack_pack, (JSON_object_json_object _ Hjson).
    change (Some ?t ≫= Plain.claims_of) with (Plain.claims_of t).
    rewrite claims_of_object_tree.
    destruct (Plain.claims_valid now (jwt_payload jwt)) eqn:Hvalid.
    + rewrite (claims_valid_error _ _ Hvalid). eauto.
    + destruct (claims_invalid_error _ _ Hvalid) as [e ->]. eauto.
Qed.

(** ** Objects *)

Lemma obj_get_set k v o : obj_get k (obj_set k v o) = Some v.
Proof.
  induction o as [|[k' v'] o IH]; cbn.
  - now rewrite String.eqb_refl.
  - destruct (String.eqb k k') eqn:Hk; cbn; now rewrite Hk.
Qed.

(** Setting a property leaves the object as it was exactly when it had
    that value already. *)
Lemma obj_set_same_iff k v o : obj_set k v o = o <-> obj_get k o = Some v.
Proof.
  split.
  - intros Hset. rewrite <- Hset. apply obj_get_set.
  - induction o as [|[k' v'] o IH]; cbn; [discriminate|].
    destruct (String.eqb k k'); [now intros [= ->]|].
    intros Hget. now rewrite IH.
Qed.

(** ** The loop over the secrets *)

Section CodecFacts.
Context {jose : Jose}.

(** One turn makes exactly one library call and never throws. *)
Lemma try_secret_answer value secret decrypt :
  try_secret value secret decrypt =
    ([secret_call value decrypt secret],
     Ok (match secret_answer value decrypt secret with
         | Ok r => Some (payload_value r)
         | Throw _ => None
         end)).
Proof.
  unfold try_secret, secret_call, secret_answer.
  destruct decrypt; [destruct (jwtDecrypt _ _)|destruct (jwtVerify _ _)];
    reflexivity.
Qed.

Lemma for_secrets_skip value decrypt pre rest :
  Forall (rejected value decrypt) pre ->
  for_secrets value (pre ++ rest) decrypt =
    (map (secret_call value decrypt) pre
       ++ calls (for_secrets value rest decrypt),
     outcome (for_secrets value rest decrypt)).
Proof.
  induction 1 as [|s pre [e He] _ IH]; cbn [app map for_secrets].
  - now destruct (for_secrets value rest decrypt).
  - rewrite try_secret_answer, He. unfold bind. rewrite IH. reflexivity.
Qed.

Lemma for_secrets_accept value decrypt k post r :
  secret_answer value decrypt k = Ok r ->
  for_secrets value (k :: post) decrypt =
    ([secret_call value decrypt k], Ok (Some (payload_value r))).
Proof.
  intros Hk. cbn [for_secrets]. rewrite try_secret_answer, Hk. reflexivity.
Qed.

Lemma for_secrets_all_rejected value decrypt secrets :
  Forall (rejected value decrypt) secrets ->
  for_secrets value secrets decrypt =
    (map (secret_call value decrypt) secrets, Ok None).
Proof.
  intros Hall. rewrite <- (app_nil_r secrets) at 1.
  rewrite for_secrets_skip by assumption. cbn. now rewrite app_nil_r.
Qed.

(** The loop never throws: every exception of a turn is caught. *)
Lemma for_secrets_outcome value decrypt secrets :
  (exists pre k post r,
      secrets = pre ++ k :: post
      /\ Forall (rejected value decrypt) pre
      /\ secret_answer value decrypt k = Ok r
      /\ for_secrets value secrets decrypt =
           (map (secret_call value decrypt) (pre ++ [k]),
            Ok (Some (payload_value r))))
  \/ (Forall (rejected value decrypt) secrets
      /\ for_secrets value secrets decrypt =
           (map (secret_call value decrypt) secrets, Ok None)).
Proof.
  induction secrets as [|s secrets IH].
  - right. split; [constructor|reflexivity].
  - destruct (secret_answer value decrypt s) as [r|e] eqn:Hs.
    + left. exists [], s, secrets, r. repeat split; [constructor|assumption|].
      now apply for_secrets_accept.
    + assert (Hrej : rejected value decrypt s) by (now exists e).
      destruct IH as [(pre & k & post & r & -> & Hpre & Hk & _)|[Hall _]].
      * left. exists (s :: pre), k, post, r.
        repeat split; [now constructor|assumption|].
        change (s :: pre ++ k :: post) with ((s :: pre) ++ k :: post).
        rewrite for_secrets_skip by now constructor.
        rewrite (for_secrets_accept _ _ _ _ r) by assumption.
        cbn. now rewrite map_app.
      * right. split; [now constructor|].
        apply for_secrets_all_rejected. now constructor.
Qed.

Lemma decode_first_accepted value decrypt pre k post r :
  Forall (rejected value decrypt) pre ->
  secret_answer value decrypt k = Ok r ->
  decodeCookieValue value (pre ++ k :: post) decrypt =
    (map (secret_call value decrypt) (pre ++ [k]), Ok (payload_value r)).
Proof.
  intros Hpre Hk. unfold decodeCookieValue.
  replace (0 <? length (pre ++ k :: post))%nat with true
    by (now destruct pre).
  rewrite for_secrets_skip by assumption.
  rewrite (for_secrets_accept _ _ _ _ r) by assumption.
  cbn. now rewrite map_app, app_nil_r.
Qed.

(** Past the loop, the token goes to the unsecured decoder and what that
    does is what the caller gets. *)
Lemma decode_all_rejected value decrypt secrets :
  Forall (rejected value decrypt) secrets ->
  decodeCookieValue value secrets decrypt =
    (map (secret_call value decrypt) secrets ++ [CallUnsecuredDecode value],
     match UnsecuredJWT_decode value with
     | Ok r => Ok (unsecured_result_value r)
     | Throw e => Throw e
     end).
Proof.
  intros Hall. unfold decodeCookieValue.
  destruct secrets as [|s secrets].
  - cbn. now destruct (UnsecuredJWT_decode value).
  - replace (0 <? length (s :: secrets))%nat with true by reflexivity.
    rewrite for_secrets_all_rejected by assumption.
    cbn. now destruct (UnsecuredJWT_decode value).
Qed.

(** The only exception that leaves [decodeCookieValue] is the unsecured
    decoder's, after every secret was rejected. *)
Lemma decode_throws_inv value decrypt secrets e :
  outcome (decodeCookieValue value secrets decrypt) = Throw e ->
  Forall (rejected value decrypt) secrets
  /\ UnsecuredJWT_decode value = Throw e.
Proof.
  destruct (for_secrets_outcome value decrypt secrets)
    as [(pre & k & post & r & -> & Hpre & Hk & _)|[Hall _]].
  - rewrite (decode_first_accepted _ _ _ _ _ r) by assumption. discriminate.
  - rewrite decode_all_rejected by assumption. cbn.
    destruct (UnsecuredJWT_decode value); [discriminate|].
    intros [= ->]. now split.
Qed.

End CodecFacts.

(** ** A value that is not a string *)

Section ValueFacts.
Context {jose : Jose}.

(** The loop catches every exception, here too. *)
Lemma for_secrets_value_outcome value decrypt secrets :
  exists l,
    for_secrets_value value secrets decrypt = (l, Ok None)
    \/ exists r,
         for_secrets_value value secrets decrypt
           = (l, Ok (Some (payload_value r))).
Proof.
  induction secrets as [|s secrets [l IH]]; [exists []; now left|].
  cbn [for_secrets_value]. unfold try_secret_value.
  destruct decrypt.
  - destruct (jwtDecrypt_value value (TextEncoder_encode s)) as [r|e]; cbn.
    + eexists. right. now exists r.
    + destruct IH as [->|[r ->]]; eexists; [now left|right; now exists r].
  - destruct (jwtVerify_value value (TextEncoder_encode s)) as [r|e]; cbn.
    + eexists. right. now exists r.
    + destruct IH as [->|[r ->]]; eexists; [now left|right; now exists r].
Qed.

(** What [decodeCookieValue] returns of a value that is not a string is
    an object, and what it throws is the unsecured decoder's exception. *)
Lemma decode_value_outcome value decrypt secrets :
  (exists o, outcome (decodeCookieValue_value value secrets decrypt)
             = Ok (VObj o))
  \/ (exists e, outcome (decodeCookieValue_value value secrets decrypt)
                = Throw e
                /\ UnsecuredJWT_decode_value value = Throw e).
Proof.
  unfold decodeCookieValue_value.
  assert (Hlast :
    forall l,
      (exists o,
          outcome (bind (l, Ok None) (fun returned : option JsVal =>
            match returned with
            | Some v => ret v
            | None =>
                await r <- call (CallUnsecuredDecodeValue value)
                                (UnsecuredJWT_decode_value value);
                ret (unsecured_result_value r)
            end)) = Ok (VObj o))
      \/ (exists e,
          outcome (bind (l, Ok None) (fun returned : option JsVal =>
            match returned with
            | Some v => ret v
            | None =>
                await r <- call (CallUnsecuredDecodeValue value)
                                (UnsecuredJWT_decode_value value);
                ret (unsecured_result_value r)
            end)) = Throw e
          /\ UnsecuredJWT_decode_value value = Throw e)).
  { intros l. cbn. destruct (UnsecuredJWT_decode_value value) as [r|e]; cbn.
    - left. eexists. reflexivity.
    - right. now exists e. }
  destruct (0 <? length secrets)%nat; [|apply (Hlast [])].
  destruct (for_secrets_value_outcome value decrypt secrets)
    as [l [->|[r ->]]]; [apply Hlast|].
  left. cbn. eexists. reflexivity.
Qed.

(** So for a string. *)
Lemma decode_outcome_object value decrypt secrets v :
  outcome (decodeCookieValue value secrets decrypt) = Ok v ->
  exists o, v = VObj o.
Proof.
  destruct (for_secrets_outcome value decrypt secrets)
    as [(pre & k & post & r & -> & Hpre & Hk & _)|[Hall _]].
  - rewrite (decode_first_accepted _ _ _ _ _ r) by assumption.
    cbn. intros [= <-]. eexists. reflexivity.
  - rewrite decode_all_rejected by assumption. cbn.
    destruct (UnsecuredJWT_decode value); [|discriminate].
    intros [= <-]. eexists. reflexivity.
Qed.

End ValueFacts.

(** ** The order of the secrets *)

(** C3: the secrets are tried in list order; the payload of the first one
    the library accepts is returned and no later secret is tried, the
    rejections before it leaving no trace but their calls.  A token made
    with [[old]] in sign mode there is none to decode under [[new; old]]:
    [encodeCookieValue] asks the signer for it with the protected header
    of the encrypt branch, and the signer throws. *)
Theorem decode_tries_secrets_in_order :
  (forall (jose : Jose) value decrypt pre k post r,
      Forall (rejected value decrypt) pre ->
      secret_answer value decrypt k = Ok r ->
      decodeCookieValue value (pre ++ k :: post) decrypt =
        (map (secret_call value decrypt) (pre ++ [k]),
         Ok (payload_value r)))
  /\ (exists msg,
        @encodeCookieValue Plain.jose (VObj uid42) ["old"] false env0
          = ([CallSign (TextEncoder_encode "old")], Throw (TypeError msg))).
Proof.
  split.
  - intros jose. apply decode_first_accepted.
  - eexists. vm_compute. reflexivity.
Qed.

(** ** Round trips *)

Lemma json_object_set (k : string) (n : Z) (o : JsObject) :
  json_object o = true -> json_object (obj_set k (VNum n) o) = true.
Proof.
  unfold json_object. cbn [json_value].
  induction o as [|[k' v] o IH]; [reflexivity|]. cbn.
  intros Hjson. apply andb_true_iff in Hjson as [Hv Ho].
  destruct (String.eqb k k'); cbn.
  - exact Ho.
  - now rewrite Hv, IH.
Qed.

Section RoundTrip.
Context {jose : Jose} {laws : JoseLaws jose}.

(** What the encrypter issued under the first secret is accepted under
    it, as the claims stamped with [iat]. *)
Lemma encode_encrypted_accepted V s0 rest env t :
  json_object V = true ->
  accepts_claims (stamped env V) = true ->
  outcome (encodeCookieValue (VObj V) (s0 :: rest) true env) = Ok t ->
  exists r, secret_answer t true s0 = Ok r /\ payload r = stamped env V.
Proof.
  intros Hjson Hvalid.
  unfold encodeCookieValue, secret_answer. cbn [length Nat.ltb Nat.leb].
  rewrite new_of_object. cbn. intros Ht.
  apply decrypt_encrypt in Ht; [|now apply json_object_set].
  cbn in Ht. unfold stamped in Hvalid. now rewrite Hvalid in Ht.
Qed.

(** C1 (as amended): in encrypt mode, for every claims object [V] of
    JSON data whose claims, stamped with [iat], pass the decoders' check
    of the registered claims, and every non-empty list of secrets, the
    token [encodeCookieValue] yields decodes under the same list to [V]
    with its [iat] claim set to the time of encoding in seconds; that is
    [V] itself exactly when [V] carried this [iat] already. *)
Theorem encode_decode_secured V secrets env t :
  secrets <> [] ->
  json_object V = true ->
  accepts_claims (stamped env V) = true ->
  outcome (encodeCookieValue (VObj V) secrets true env) = Ok t ->
  outcome (decodeCookieValue t secrets true) = Ok (VObj (stamped env V))
  /\ (outcome (decodeCookieValue t secrets true) = Ok (VObj V)
      <-> obj_get "iat" V = Some (VNum (epoch (Date_now env)))).
Proof.
  destruct secrets as [|s0 rest]; [contradiction|]. intros _ Hjson Hvalid Ht.
  apply encode_encrypted_accepted in Ht as (r & Hr & Hp); try assumption.
  rewrite (decode_first_accepted t true [] s0 rest r)
    by (constructor || assumption).
  cbn. unfold payload_value. rewrite Hp. split; [reflexivity|].
  unfold stamped. rewrite <- obj_set_same_iff.
  split; [now intros [= ->]|now intros ->].
Qed.

(** C4 (as amended): for every claims object [V] of JSON data whose
    claims, stamped with [iat], pass the decoders' check of the
    registered claims, encoding with no secret calls the unsecured
    encoder alone and yields a token; decoding it with no secret calls
    the unsecured decoder alone and settles without an exception, on a
    value that is, or holds as its [payload], [V] with [iat] set to the
    time of encoding in seconds. *)
Theorem unsecured_encode_decode V mode mode' env :
  json_object V = true ->
  accepts_claims (stamped env V) = true ->
  exists t v,
    encodeCookieValue (VObj V) [] mode env = ([CallUnsecuredEncode], Ok t)
    /\ decodeCookieValue t [] mode' = ([CallUnsecuredDecode t], Ok v)
    /\ (v = VObj (stamped env V)
        \/ js_get v "payload" = VObj (stamped env V)).
Proof.
  intros Hjson Hvalid.
  pose (jwt := setIssuedAt env
                 {| jwt_payload := V; jwt_protectedHeader := None |}).
  pose proof (unsecured_decode_encode jwt) as Hlaw.
  change (jwt_payload jwt) with (stamped env V) in Hlaw.
  rewrite Hvalid in Hlaw.
  destruct Hlaw as (r & Hr & Hp); [now apply json_object_set|].
  exists (UnsecuredJWT_encode jwt), (unsecured_result_value r).
  split; [|split].
  - unfold encodeCookieValue. cbn [length Nat.ltb Nat.leb].
    now rewrite new_of_object.
  - rewrite (decode_all_rejected _ _ []) by constructor. now rewrite Hr.
  - right. cbn. now rewrite Hp.
Qed.

End RoundTrip.

(** ** The encoder and the list of secrets *)

(** C8: on non-empty lists of secrets, [encodeCookieValue] depends on the
    list through its first entry alone: two lists with the same head give
    the same calls into the library and the same outcome, for the same
    value, mode, clock and random bytes. *)
Theorem encode_uses_first_secret {jose : Jose} value secrets1 secrets2 mode env :
  secrets1 <> [] ->
  secrets2 <> [] ->
  secrets1 !! 0%nat = secrets2 !! 0%nat ->
  encodeCookieValue value secrets1 mode env =
    encodeCookieValue value secrets2 mode env.
Proof.
  destruct secrets1 as [|s1 rest1], secrets2 as [|s2 rest2]; try contradiction.
  intros _ _ [= ->]. reflexivity.
Qed.

(** ** The descriptor *)

Section Descriptor.
Context {jose : Jose} {cookie : CookieLib}.

Lemma descriptor_maxAge cookieOptions :
  opt_maxAge (descriptor_options cookieOptions) =
    opt_maxAge (opt_attributes cookieOptions).
Proof. cbn. now destruct (opt_maxAge _). Qed.

Lemma descriptor_expires cookieOptions :
  opt_expires (descriptor_options cookieOptions) =
    opt_expires (opt_attributes cookieOptions).
Proof. cbn. now destruct (opt_expires _). Qed.

Lemma Object_prototype_not_string k s :
  obj_get k Object_prototype <> Some (VStr s).
Proof.
  unfold Object_prototype. cbn.
  repeat (destruct (String.eqb k _); [discriminate|]). discriminate.
Qed.

(** [parse] on a header that is there, by what [name in cookies] finds. *)
Lemma parse_own n o d header raw over :
  header <> "" ->
  cookie_parse header (spread (descriptor_options o) over) !! n = Some raw ->
  parse (createCookieFactory tt n o d).1 (Some header) over =
    if String.eqb raw ""
    then ([], Ok (VStr ""))
    else decodeCookieValue raw (default [] (opt_secrets o))
           (default false (opt_encrypt o)).
Proof.
  intros Hheader Hraw. unfold createCookieFactory. cbn [fst parse].
  cbn [not_header default from_option id].
  destruct (String.eqb_spec header "") as [->|_]; [contradiction|].
  unfold js_in, js_prop. rewrite Hraw.
  rewrite bool_decide_eq_true_2 by eauto. cbn [orb].
  now destruct raw.
Qed.

Lemma parse_inherited n o d header v over :
  header <> "" ->
  cookie_parse header (spread (descriptor_options o) over) !! n = None ->
  obj_get n Object_prototype = Some v ->
  parse (createCookieFactory tt n o d).1 (Some header) over =
    decodeCookieValue_value v (default [] (opt_secrets o))
      (default false (opt_encrypt o)).
Proof.
  intros Hheader Hraw Hv. unfold createCookieFactory. cbn [fst parse].
  cbn [not_header default from_option id].
  destruct (String.eqb_spec header "") as [->|_]; [contradiction|].
  unfold js_in, js_prop. rewrite Hraw, Hv.
  rewrite (bool_decide_eq_true_2 (is_Some (Some v))) by eauto.
  rewrite orb_true_r. cbn [default from_option id].
  destruct v; try reflexivity.
  now apply Object_prototype_not_string in Hv.
Qed.

Lemma parse_neither n o d header over :
  cookie_parse header (spread (descriptor_options o) over) !! n = None ->
  obj_get n Object_prototype = None ->
  parse (createCookieFactory tt n o d).1 (Some header) over = ([], Ok VNull).
Proof.
  intros Hraw Hv. unfold createCookieFactory. cbn [fst parse].
  cbn [not_header default from_option id].
  destruct (String.eqb header ""); [reflexivity|].
  unfold js_in. rewrite Hraw, Hv.
  rewrite !bool_decide_eq_false_2 by (intros [? ?]; discriminate).
  reflexivity.
Qed.

(** C5: whatever the secrets and the mode, serializing the empty string
    hands the empty raw value to the cookie serializer and calls no token
    encoder; and parsing a header in which the cookie's raw value is the
    empty string returns the empty string and calls no token decoder. *)
Theorem empty_value_short_circuit name cookieOptions d over env :
  let c := (createCookieFactory tt name cookieOptions d).1 in
  serialize c (VStr "") over env =
    ([], cookie_serialize name ""
           (spread (descriptor_options cookieOptions) over))
  /\ forall header,
       header <> "" ->
       cookie_parse header (spread (descriptor_options cookieOptions) over)
         !! name = Some "" ->
       parse c (Some header) over = ([], Ok (VStr "")).
Proof.
  split.
  - cbn. now destruct (cookie_serialize _ _ _).
  - intros header Hne Hraw.
    now rewrite (parse_own _ _ _ _ "") by assumption.
Qed.

(** C6: [parse] returns [null], without an exception and without a call
    to the token decoder, when the header is [null] or missing, and when
    the descriptor's name is neither a cookie of the header nor a name
    every object inherits.  For an inherited name that is no cookie of the
    header, [toString] say, [name in cookies] holds all the same and
    [parse] goes on to decode the inherited value: it does not return
    [null]. *)
Theorem parse_absent name cookieOptions d over :
  let c := (createCookieFactory tt name cookieOptions d).1 in
  parse c None over = ([], Ok VNull)
  /\ (forall header,
        cookie_parse header (spread (descriptor_options cookieOptions) over)
          !! name = None ->
        obj_get name Object_prototype = None ->
        parse c (Some header) over = ([], Ok VNull))
  /\ (forall header,
        header <> "" ->
        cookie_parse header (spread (descriptor_options cookieOptions) over)
          !! name = None ->
        is_Some (obj_get name Object_prototype) ->
        outcome (parse c (Some header) over) <> Ok VNull).
Proof.
  split; [reflexivity|]. split.
  - intros header Hraw Hv. now apply parse_neither.
  - intros header Hheader Hraw [v Hv].
    rewrite (parse_inherited _ _ _ _ v) by assumption.
    destruct (decode_value_outcome v (default false (opt_encrypt cookieOptions))
                (default [] (opt_secrets cookieOptions)))
      as [[obj ->]|(e & -> & _)]; discriminate.
Qed.

(** C7 (as amended): with a number as [maxAge], every read of [expires]
    is [new Date] of the time of the read plus [maxAge] seconds, whatever
    [expires] was configured: that time when it is a time value, within
    8.64e15 milliseconds of the epoch, and an invalid date beyond; a read
    within that range differs from every read at another time.  With
    [maxAge] missing or undefined, every read is the configured
    [expires], or undefined when there is none. *)
Theorem expires_derivation name cookieOptions d :
  let c := (createCookieFactory tt name cookieOptions d).1 in
  (forall maxAge,
      opt_maxAge (opt_attributes cookieOptions) = Defined maxAge ->
      (forall env,
          Z.abs (Date_now env + maxAge * 1000) <= 8640000000000000 ->
          expires c env = Some (ValidDate (Date_now env + maxAge * 1000)))
      /\ (forall env,
            8640000000000000 < Z.abs (Date_now env + maxAge * 1000) ->
            expires c env = Some InvalidDate)
      /\ (forall env env',
            Z.abs (Date_now env + maxAge * 1000) <= 8640000000000000 ->
            Date_now env <> Date_now env' ->
            expires c env <> expires c env'))
  /\ (attr_value (opt_maxAge (opt_attributes cookieOptions)) = None ->
      forall env,
        expires c env = attr_value (opt_expires (opt_attributes cookieOptions))).
Proof.
  cbn zeta. unfold createCookieFactory. cbn [fst expires].
  rewrite descriptor_maxAge, descriptor_expires. split.
  - intros maxAge ->. unfold new_Date. split; [|split].
    + intros env Hrange.
      now destruct (Z.leb_spec (Z.abs (Date_now env + maxAge * 1000))
                      8640000000000000); [|lia].
    + intros env Hrange.
      now destruct (Z.leb_spec (Z.abs (Date_now env + maxAge * 1000))
                      8640000000000000); [lia|].
    + intros env env' Hrange Hne.
      destruct (Z.leb_spec (Z.abs (Date_now env + maxAge * 1000))
                  8640000000000000); [|lia].
      destruct (Z.abs (Date_now env' + maxAge * 1000) <=? 8640000000000000);
        [|discriminate].
      intros [= Heq]. apply Hne. lia.
  - now destruct (opt_maxAge (opt_attributes cookieOptions)).
Qed.

(** C9 (as amended): the [name] of a descriptor is the name it was
    constructed with, on every read; no name is refused, the empty
    string included. *)
Theorem name_is_construction_name n cookieOptions d :
  name (createCookieFactory tt n cookieOptions d).1 = n.
Proof. reflexivity. Qed.

(** C10: every object [createCookieFactory()(name, options)] returns
    passes [isCookie], whenever its properties are read. *)
Theorem created_cookie_isCookie name cookieOptions d env :
  isCookie (Cookie_value env (createCookieFactory tt name cookieOptions d).1)
  = true.
Proof. reflexivity. Qed.

End Descriptor.

(** ** The properties on concrete inputs *)

(** [{ uid: 42 }] encrypted under the secret [old] at the time [env0]. *)
Lemma encode_decode_secured_witness :
  outcome (@decodeCookieValue Plain.jose encrypted_uid42 ["old"] true)
    = Ok (VObj uid42_iat5)
  /\ (outcome (@decodeCookieValue Plain.jose encrypted_uid42 ["old"] true)
        = Ok (VObj uid42)
      <-> obj_get "iat" uid42 = Some (VNum 5)).
Proof.
  apply (encode_decode_secured (laws := plain_laws 5)
           uid42 ["old"] env0 encrypted_uid42).
  - discriminate.
  - reflexivity.
  - reflexivity.
  - vm_compute. reflexivity.
Defined.

(** C1 as stated fails.  Encrypted, [{ uid: 42 }] comes back as
    [{ uid: 42, iat: 5 }]; signed, there is no token to decode; the
    claims [{ uid: 42, exp: 1 }], expired at the time of decoding, are
    encrypted into a token that no decoder accepts; a string is no claims
    set; and of [{ x: undefined }] the member is lost in the token. *)
Lemma encode_decode_not_identity :
  outcome
    (await t <- @encodeCookieValue Plain.jose (VObj uid42) ["s1"] true env0;
     @decodeCookieValue Plain.jose t ["s1"] true)
    = Ok (VObj uid42_iat5)
  /\ outcome
    (await t <- @encodeCookieValue Plain.jose (VObj uid42) ["s1"] true env0;
     @decodeCookieValue Plain.jose t ["s1"] true)
    <> Ok (VObj uid42)
  /\ (exists msg,
        outcome
          (await t <- @encodeCookieValue Plain.jose (VObj uid42) ["s1"] false
                        env0;
           @decodeCookieValue Plain.jose t ["s1"] false)
        = Throw (TypeError msg))
  /\ outcome
    (await t <- @encodeCookieValue Plain.jose
                  (VObj [("uid", VNum 42); ("exp", VNum 1)]) ["s1"] true env0;
     @decodeCookieValue Plain.jose t ["s1"] true)
    = Throw (JOSEError "ERR_JWT_INVALID")
  /\ outcome
    (await t <- @encodeCookieValue Plain.jose (VStr "hello") ["s1"] true env0;
     @decodeCookieValue Plain.jose t ["s1"] true)
    = Throw (TypeError "JWT Claims Set MUST be an object")
  /\ outcome
    (await t <- @encodeCookieValue Plain.jose (VObj [("x", VUndefined)])
                  ["s1"] true env0;
     @decodeCookieValue Plain.jose t ["s1"] true)
    = Ok (VObj [("iat", VNum 5)]).
Proof.
  split; [vm_compute; reflexivity|].
  split; [vm_compute; discriminate|].
  split; [eexists; vm_compute; reflexivity|].
  repeat split; vm_compute; reflexivity.
Qed.

(** C2: a token of the unsecured encoder, decoded with no secret or with
    secrets that all reject it, comes back as the decoder's result object
    [{ payload, header }], where the secured branches hand back the
    payload; a descriptor without secrets hands the same object to the
    caller of [parse]. *)
Lemma decode_fallback_hands_back_result_object :
  outcome (@decodeCookieValue Plain.jose unsecured_uid42 [] false)
    = Ok (VObj [("payload", VObj [("uid", VNum 42); ("iat", VNum 5)]);
                ("header", VObj [("alg", VStr "none")])])
  /\ outcome (@decodeCookieValue Plain.jose unsecured_uid42 ["s1"; "s2"] false)
    = Ok (VObj [("payload", VObj [("uid", VNum 42); ("iat", VNum 5)]);
                ("header", VObj [("alg", VStr "none")])])
  /\ outcome
       (parse (plain_cookie "session" no_options)
          (Some ("session=" +:+ unsecured_uid42)) no_attributes)
    = Ok (VObj [("payload", VObj [("uid", VNum 42); ("iat", VNum 5)]);
                ("header", VObj [("alg", VStr "none")])]).
Proof. repeat split; vm_compute; reflexivity. Qed.

(** The token encrypted under [old], read under [[new; old; older]]; and
    the same under [old] with HS256, as an issuer with the signer's own
    header makes it. *)
Lemma decode_tries_secrets_in_order_witness :
  @decodeCookieValue Plain.jose encrypted_uid42 ["new"; "old"; "older"] true
    = ([CallDecrypt encrypted_uid42 (TextEncoder_encode "new");
        CallDecrypt encrypted_uid42 (TextEncoder_encode "old")],
       Ok (VObj uid42_iat5))
  /\ @decodeCookieValue Plain.jose signed_uid42 ["new"; "old"] false
    = ([CallVerify signed_uid42 (TextEncoder_encode "new");
        CallVerify signed_uid42 (TextEncoder_encode "old")],
       Ok (VObj uid42_iat5)).
Proof.
  destruct decode_tries_secrets_in_order as [Horder _].
  split.
  - apply (Horder Plain.jose encrypted_uid42 true ["new"] "old" ["older"]
             {| payload := uid42_iat5; protectedHeader := protected_header |}).
    + constructor; [|constructor].
      exists (JOSEError "ERR_JWE_DECRYPTION_FAILED").
      vm_compute. reflexivity.
    + vm_compute. reflexivity.
  - apply (Horder Plain.jose signed_uid42 false ["new"] "old" []
             {| payload := uid42_iat5;
                protectedHeader := [("alg", VStr "HS256")] |}).
    + constructor; [|constructor].
      exists (JOSEError "ERR_JWS_SIGNATURE_VERIFICATION_FAILED").
      vm_compute. reflexivity.
    + vm_compute. reflexivity.
Defined.

Lemma unsecured_encode_decode_witness :
  exists t v,
    @encodeCookieValue Plain.jose (VObj uid42) [] false env0
      = ([CallUnsecuredEncode], Ok t)
    /\ @decodeCookieValue Plain.jose t [] false
      = ([CallUnsecuredDecode t], Ok v)
    /\ (v = VObj uid42_iat5 \/ js_get v "payload" = VObj uid42_iat5).
Proof.
  apply (unsecured_encode_decode (laws := plain_laws 5) uid42 false false env0).
  - reflexivity.
  - reflexivity.
Defined.

(** C4 as stated fails.  [{ uid: 42 }] does not come back from the
    unsecured round trip, and its claims come back with [iat]; the claims
    [{ uid: 42, exp: 1 }], expired at the time of decoding, are refused
    by the decoder; a string is no claims set; and of [{ x: undefined }]
    the member is lost in the token. *)
Lemma unsecured_encode_decode_not_identity :
  outcome
    (await t <- @encodeCookieValue Plain.jose (VObj uid42) [] false env0;
     @decodeCookieValue Plain.jose t [] false)
    <> Ok (VObj uid42)
  /\ (await v <- (await t <- @encodeCookieValue Plain.jose (VObj uid42) []
                               false env0;
                  @decodeCookieValue Plain.jose t [] false);
      ret (js_get v "payload"))
    = ([CallUnsecuredEncode; CallUnsecuredDecode unsecured_uid42],
       Ok (VObj uid42_iat5))
  /\ outcome
    (await t <- @encodeCookieValue Plain.jose
                  (VObj [("uid", VNum 42); ("exp", VNum 1)]) [] false env0;
     @decodeCookieValue Plain.jose t [] false)
    = Throw (JOSEError "ERR_JWT_EXPIRED")
  /\ outcome
    (await t <- @encodeCookieValue Plain.jose (VStr "hello") [] false env0;
     @decodeCookieValue Plain.jose t [] false)
    = Throw (TypeError "JWT Claims Set MUST be an object")
  /\ outcome
    (await v <- (await t <- @encodeCookieValue Plain.jose
                               (VObj [("x", VUndefined)]) [] false env0;
                 @decodeCookieValue Plain.jose t [] false);
     ret (js_get v "payload"))
    = Ok (VObj [("iat", VNum 5)]).
Proof.
  split; [vm_compute; discriminate|].
  repeat split; vm_compute; reflexivity.
Qed.

Lemma empty_value_short_circuit_witness :
  serialize (plain_cookie "session" no_options) (VStr "") no_attributes env0
    = ([], Ok "session=")
  /\ parse (plain_cookie "session" no_options) (Some "session=") no_attributes
    = ([], Ok (VStr "")).
Proof.
  destruct (empty_value_short_circuit (jose := Plain.jose)
              (cookie := Plain.cookie)
              "session" no_options no_diagnostics no_attributes env0)
    as [Hser Hparse].
  split.
  - exact Hser.
  - apply (Hparse "session="); [discriminate|reflexivity].
Defined.

Lemma parse_absent_witness :
  parse (plain_cookie "session" no_options) None no_attributes = ([], Ok VNull)
  /\ parse (plain_cookie "session" no_options) (Some "other=1") no_attributes
    = ([], Ok VNull)
  /\ outcome
       (parse (plain_cookie "toString" no_options) (Some "other=1")
          no_attributes)
    <> Ok VNull.
Proof.
  destruct (parse_absent (jose := Plain.jose) (cookie := Plain.cookie)
              "session" no_options no_diagnostics no_attributes)
    as (Hnull & Hmissing & _).
  destruct (parse_absent (jose := Plain.jose) (cookie := Plain.cookie)
              "toString" no_options no_diagnostics no_attributes)
    as (_ & _ & Hinherited).
  split; [|split].
  - exact Hnull.
  - apply (Hmissing "other=1"); reflexivity.
  - apply (Hinherited "other=1").
    + discriminate.
    + reflexivity.
    + exists (VFun "toString"). reflexivity.
Defined.

Lemma expires_derivation_witness :
  expires (plain_cookie "session" rolling_options) env0
    = Some (ValidDate 3605000)
  /\ expires (plain_cookie "session" distant_options) env0 = Some InvalidDate
  /\ expires (plain_cookie "session" rolling_options) env0
     <> expires (plain_cookie "session" rolling_options) env1
  /\ expires (plain_cookie "session" fixed_options) env1
     = Some (ValidDate 77).
Proof.
  destruct (expires_derivation (jose := Plain.jose) (cookie := Plain.cookie)
              "session" rolling_options no_diagnostics) as [Hrolling _].
  destruct (Hrolling 3600 eq_refl) as (Hread & _ & Hdiffer).
  destruct (expires_derivation (jose := Plain.jose) (cookie := Plain.cookie)
              "session" distant_options no_diagnostics) as [Hdistant _].
  destruct (Hdistant 8640000000000 eq_refl) as (_ & Hbeyond & _).
  destruct (expires_derivation (jose := Plain.jose) (cookie := Plain.cookie)
              "session" fixed_options no_diagnostics) as [_ Hfixed].
  split; [|split; [|split]].
  - apply (Hread env0). cbn. lia.
  - apply (Hbeyond env0). cbn. lia.
  - apply Hdiffer; [cbn; lia|discriminate].
  - exact (Hfixed eq_refl env1).
Defined.

(** C7 as stated fails: with [maxAge] 8640000000000, the time of a read
    plus [maxAge] seconds is past the range of dates; the reads at [env0]
    and at [env1] are the invalid date both, neither the time of the read
    plus [maxAge] seconds nor different. *)
Lemma expires_beyond_date_range :
  expires (plain_cookie "session" distant_options) env0
    <> Some (ValidDate (Date_now env0 + 8640000000000 * 1000))
  /\ Date_now env0 <> Date_now env1
  /\ expires (plain_cookie "session" distant_options) env0
     = expires (plain_cookie "session" distant_options) env1.
Proof. repeat split; vm_compute; discriminate || reflexivity. Qed.

Lemma encode_uses_first_secret_witness :
  @encodeCookieValue Plain.jose (VObj uid42) ["s0"; "a"; "b"] true env0
    = @encodeCookieValue Plain.jose (VObj uid42) ["s0"; "c"] true env0.
Proof.
  apply (encode_uses_first_secret (jose := Plain.jose)).
  - discriminate.
  - discriminate.
  - reflexivity.
Defined.

(** C9 as stated fails: a descriptor constructed with the empty name has
    the empty name. *)
Lemma name_can_be_empty :
  name (plain_cookie "" no_options) = "".
Proof. reflexivity. Qed.

(** * Further properties of the codec *)

Lemma obj_get_set_other k k' v o :
  k <> k' -> obj_get k' (obj_set k v o) = obj_get k' o.
Proof.
  intros Hne. induction o as [|[k0 v0] o IH]; cbn.
  - destruct (String.eqb_spec k' k); [congruence|reflexivity].
  - destruct (String.eqb_spec k k0) as [->|_]; cbn.
    + destruct (String.eqb_spec k' k0); [congruence|reflexivity].
    + now rewrite IH.
Qed.

Section CodecMore.
Context {jose : Jose}.

Lemma secret_call_not_unsecured value value' decrypt s :
  secret_call value decrypt s <> CallUnsecuredDecode value'.
Proof. unfold secret_call. now destruct decrypt. Qed.

Lemma rejected_not_accepted value decrypt s :
  rejected value decrypt s -> accepted value decrypt s -> False.
Proof. intros [e He] [r Hr]. congruence. Qed.

(** X1: a value the builders' constructor refuses is refused by
    [encodeCookieValue] with the constructor's exception, whatever the
    secrets and the mode, before any token is asked for. *)
Theorem encode_rejected_value value secrets mode env e :
  ProduceJWT_new value = Throw e ->
  encodeCookieValue value secrets mode env = ([], Throw e).
Proof.
  intros Hnew. unfold encodeCookieValue. rewrite Hnew.
  now destruct (0 <? length secrets)%nat, mode.
Qed.

(** X2: when the constructor accepts the value, [encodeCookieValue] asks
    the library for one token and settles as the library answers; the
    claims it hands over carry [iat], the time of encoding in seconds,
    in place of any [iat] of the caller's, and every other claim as the
    constructor gave it; the protected header is set under a secret and
    absent without one. *)
Theorem encode_stamps_claims value claims secrets mode env :
  ProduceJWT_new value = Ok claims ->
  exists jwt,
    encodeCookieValue value secrets mode env =
      ([issue_call secrets mode], issue jwt secrets mode env)
    /\ obj_get "iat" (jwt_payload jwt) = Some (VNum (epoch (Date_now env)))
    /\ (forall k, k <> "iat" -> obj_get k (jwt_payload jwt) = obj_get k claims)
    /\ jwt_protectedHeader jwt =
         match secrets with
         | [] => None
         | _ :: _ => Some protected_header
         end.
Proof.
  intros Hnew. unfold encodeCookieValue. rewrite Hnew.
  destruct secrets as [|s0 rest]; cbn [length Nat.ltb Nat.leb].
  - eexists. split; [reflexivity|]. cbn. split; [apply obj_get_set|].
    split; [|reflexivity]. intros k Hk. apply obj_get_set_other. congruence.
  - destruct mode.
    + eexists. split; [reflexivity|]. cbn. split; [apply obj_get_set|].
      split; [|reflexivity]. intros k Hk. apply obj_get_set_other. congruence.
    + eexists. split; [reflexivity|]. cbn. split; [apply obj_get_set|].
      split; [|reflexivity]. intros k Hk. apply obj_get_set_other. congruence.
Qed.

(** X3: [decodeCookieValue] consults the unsecured decoder exactly when
    every secret was rejected (as when there is none): a token one of the
    secrets accepts never reaches it. *)
Theorem decode_consults_unsecured_iff value decrypt secrets :
  In (CallUnsecuredDecode value)
     (calls (decodeCookieValue value secrets decrypt))
  <-> Forall (rejected value decrypt) secrets.
Proof.
  destruct (for_secrets_outcome value decrypt secrets)
    as [(pre & k & post & r & -> & Hpre & Hk & _)|[Hall _]].
  - rewrite (decode_first_accepted _ _ _ _ _ r) by assumption. cbn [calls fst].
    split.
    + intros Hin. apply in_map_iff in Hin as (s & Hs & _).
      now apply secret_call_not_unsecured in Hs.
    + intros Hall. exfalso.
      apply Forall_app in Hall as [_ Hall].
      apply Forall_cons_1 in Hall as [Hrej _].
      apply (rejected_not_accepted _ _ _ Hrej). now exists r.
  - rewrite decode_all_rejected by assumption. cbn [calls fst].
    split; [done|]. intros _. apply in_or_app. right. now left.
Qed.

(** X4: [decodeCookieValue] throws exactly when every secret was rejected
    and the unsecured decoder throws on the token, and then it throws that
    decoder's exception; no exception of a verification or a decryption
    reaches the caller. *)
Theorem decode_throws_iff value decrypt secrets e :
  outcome (decodeCookieValue value secrets decrypt) = Throw e
  <-> Forall (rejected value decrypt) secrets
      /\ UnsecuredJWT_decode value = Throw e.
Proof.
  split; [apply decode_throws_inv|].
  intros [Hall Hdec]. rewrite decode_all_rejected by assumption.
  cbn. now rewrite Hdec.
Qed.

(** X5: every call [decodeCookieValue] makes is the verification (in sign
    mode) or the decryption (in encrypt mode) of the given token under one
    of the given secrets, or the unsecured decoding of that token; there
    are at most as many calls as secrets, and one. *)
Theorem decode_calls_shape value decrypt secrets :
  Forall (decode_call value decrypt secrets)
         (calls (decodeCookieValue value secrets decrypt))
  /\ (length (calls (decodeCookieValue value secrets decrypt))
      <= length secrets + 1)%nat.
Proof.
  assert (Hmap : forall l, (forall s, In s l -> In s secrets) ->
            Forall (decode_call value decrypt secrets)
                   (map (secret_call value decrypt) l)).
  { intros l Hl. apply Forall_forall. intros c Hc.
    apply list_elem_of_In, in_map_iff in Hc as (s & <- & Hs).
    right. exists s. split; [now apply Hl|reflexivity]. }
  destruct (for_secrets_outcome value decrypt secrets)
    as [(pre & k & post & r & -> & Hpre & Hk & _)|[Hall _]].
  - rewrite (decode_first_accepted _ _ _ _ _ r) by assumption. cbn [calls fst].
    split.
    + apply Hmap. intros s Hs. apply in_app_iff in Hs as [Hs|[<-|[]]];
        apply in_app_iff; [now left|right; now left].
    + rewrite length_map, !length_app. cbn. lia.
  - rewrite decode_all_rejected by assumption. cbn [calls fst]. split.
    + apply Forall_app. split; [now apply Hmap|].
      constructor; [now left|constructor].
    + rewrite length_app, length_map. cbn. lia.
Qed.

(** X7: once one of the secrets accepts a token, secrets added at the end
    of the list change nothing: the same calls, the same result. *)
Theorem decode_append_secrets value decrypt secrets more :
  Exists (accepted value decrypt) secrets ->
  decodeCookieValue value (secrets ++ more) decrypt =
    decodeCookieValue value secrets decrypt.
Proof.
  intros Hex.
  destruct (for_secrets_outcome value decrypt secrets)
    as [(pre & k & post & r & -> & Hpre & Hk & _)|[Hall _]].
  - rewrite <- app_assoc. cbn [app].
    now rewrite !(decode_first_accepted _ _ _ _ _ r).
  - exfalso. apply Exists_exists in Hex as (s & Hs & Hacc).
    rewrite Forall_forall in Hall.
    exact (rejected_not_accepted _ _ _ (Hall s Hs) Hacc).
Qed.

(** X17: when one of the secrets accepts a token and every other secret
    of the list rejects it, the token decodes to that secret's payload
    wherever the secret stands in the list. *)
Theorem decode_only_accepting_secret value decrypt secrets k r :
  In k secrets ->
  Forall (fun s => s <> k -> rejected value decrypt s) secrets ->
  secret_answer value decrypt k = Ok r ->
  outcome (decodeCookieValue value secrets decrypt) = Ok (payload_value r).
Proof.
  intros Hin Hothers Hk. rewrite Forall_forall in Hothers.
  destruct (for_secrets_outcome value decrypt secrets)
    as [(pre & k' & post & r' & -> & Hpre & Hk' & _)|[Hall _]].
  - rewrite (decode_first_accepted _ _ _ _ _ r') by assumption. cbn.
    destruct (String.eqb_spec k' k) as [->|Hne]; [congruence|].
    exfalso. apply (rejected_not_accepted value decrypt k'); [|now exists r'].
    apply Hothers; [|assumption].
    apply list_elem_of_In, in_or_app. right. now left.
  - exfalso. rewrite Forall_forall in Hall.
    apply (rejected_not_accepted value decrypt k); [|now exists r].
    apply Hall. now apply list_elem_of_In.
Qed.

End CodecMore.

Section RotationMore.
Context {jose : Jose} {laws : JoseLaws jose}.

(** X6: a token encrypted for the claims object [V] of JSON data, whose
    stamped claims pass the decoders' check, under the first secret of a
    list decrypts to [V] with its [iat] under every list in which that
    secret comes after secrets that reject the token only, whatever
    follows it: a rotated list reads old tokens with their value. *)
Theorem decode_after_rotation V s0 rest env t pre post :
  json_object V = true ->
  accepts_claims (stamped env V) = true ->
  outcome (encodeCookieValue (VObj V) (s0 :: rest) true env) = Ok t ->
  Forall (rejected t true) pre ->
  outcome (decodeCookieValue t (pre ++ s0 :: post) true) =
    Ok (VObj (stamped env V)).
Proof.
  intros Hjson Hvalid Ht Hpre.
  apply encode_encrypted_accepted in Ht as (r & Hr & Hp); try assumption.
  rewrite (decode_first_accepted t true pre s0 post r) by assumption.
  cbn. unfold payload_value. now rewrite Hp.
Qed.

End RotationMore.

(** * Further properties of the descriptor *)

Lemma outcome_bind_lift {A B} (m : M A) (f : A -> result B) :
  outcome (bind m (fun a => lift (f a))) =
    match outcome m with
    | Ok a => f a
    | Throw e => Throw e
    end.
Proof. destruct m as [l [a|e]]; reflexivity. Qed.

Lemma calls_bind_lift {A B} (m : M A) (f : A -> result B) :
  calls (bind m (fun a => lift (f a))) = calls m.
Proof. destruct m as [l [a|e]]; cbn; [apply app_nil_r|reflexivity]. Qed.

Lemma or_else_assoc {A} (a b c : Attr A) :
  or_else c (or_else b a) = or_else (or_else c b) a.
Proof. now destruct c. Qed.

Lemma spread_assoc a b c : spread (spread a b) c = spread a (spread b c).
Proof. unfold spread; cbn. now rewrite !or_else_assoc. Qed.

Lemma spread_no_attributes a : spread a no_attributes = a.
Proof. now destruct a. Qed.

Lemma value_empty_or_not (value : JsVal) :
  value = VStr "" \/ value <> VStr "".
Proof.
  destruct value as [ | | | | [|] | | | | ];
    (left; reflexivity) || (right; discriminate).
Qed.

Lemma typeof_string_inv v :
  JsType_eqb (typeof v) TString = true <-> exists s, v = VStr s.
Proof.
  split; [|now intros [s ->]]. destruct v; try discriminate. eauto.
Qed.

Lemma typeof_boolean_inv v :
  JsType_eqb (typeof v) TBoolean = true <-> exists b, v = VBool b.
Proof.
  split; [|now intros [b ->]]. destruct v; try discriminate. eauto.
Qed.

Lemma typeof_function_inv v :
  JsType_eqb (typeof v) TFunction = true <-> exists f, v = VFun f.
Proof.
  split; [|now intros [f ->]]. destruct v; try discriminate. eauto.
Qed.

Lemma js_get_defined o k v :
  v <> VUndefined -> js_get (VObj o) k = v <-> obj_get k o = Some v.
Proof.
  intros Hv. cbn. destruct (obj_get k o) as [w|]; cbn.
  - split; congruence.
  - split; [congruence|discriminate].
Qed.

(** X13: [isCookie] refuses [null] and [undefined], and accepts an object
    exactly when its [name] is a string, its [isSigned] a boolean and its
    [parse] and [serialize] functions; nothing else of the object is
    looked at. *)
Theorem isCookie_object_iff o :
  isCookie VNull = false
  /\ isCookie VUndefined = false
  /\ (isCookie (VObj o) = true
      <-> exists n b f g,
            obj_get "name" o = Some (VStr n)
            /\ obj_get "isSigned" o = Some (VBool b)
            /\ obj_get "parse" o = Some (VFun f)
            /\ obj_get "serialize" o = Some (VFun g)).
Proof.
  split; [reflexivity|]. split; [reflexivity|].
  unfold isCookie. cbn [not_nullish andb].
  rewrite !andb_true_iff, typeof_string_inv, typeof_boolean_inv,
    !typeof_function_inv.
  split.
  - intros [[[[n Hn] [b Hb]] [f Hf]] [g Hg]].
    exists n, b, f, g.
    apply js_get_defined in Hn, Hb, Hf, Hg; try discriminate. auto.
  - intros (n & b & f & g & Hn & Hb & Hf & Hg).
    repeat split; eexists; apply js_get_defined; try discriminate; eassumption.
Qed.

Section DescriptorMore.
Context {jose : Jose} {cookie : CookieLib}.

Lemma serialize_of_value n o d value sOpts env :
  value <> VStr "" ->
  serialize (createCookie n o d).1 value sOpts env =
    bind (encodeCookieValue value (default [] (opt_secrets o))
            (default false (opt_encrypt o)) env)
         (fun raw =>
            lift (cookie_serialize n raw
                    (spread (descriptor_options o) sOpts))).
Proof.
  intros Hne. destruct value as [ | | | | [|] | | | | ];
    try reflexivity. congruence.
Qed.

(** X8: [serialize] throws exactly what the token encoder throws on the
    value or, once the raw value is there (the empty string for the empty
    string, the token otherwise), what the cookie serializer throws on it;
    nothing is caught. *)
Theorem serialize_throws_iff n o d value sOpts env e :
  let c := (createCookie n o d).1 in
  let secrets := default [] (opt_secrets o) in
  let encrypt := default false (opt_encrypt o) in
  let options := spread (descriptor_options o) sOpts in
  outcome (serialize c value sOpts env) = Throw e
  <-> (value = VStr "" /\ cookie_serialize n "" options = Throw e)
      \/ (value <> VStr ""
          /\ outcome (encodeCookieValue value secrets encrypt env) = Throw e)
      \/ (value <> VStr ""
          /\ exists t,
               outcome (encodeCookieValue value secrets encrypt env) = Ok t
               /\ cookie_serialize n t options = Throw e).
Proof.
  cbn zeta. destruct (value_empty_or_not value) as [->|Hne].
  - change (outcome (serialize (createCookie n o d).1 (VStr "") sOpts env))
      with (outcome (bind (ret "") (fun raw =>
              lift (cookie_serialize n raw
                      (spread (descriptor_options o) sOpts))))).
    rewrite outcome_bind_lift. cbn. split.
    + intros H. now left.
    + intros [[_ H]|[[H _]|[H _]]]; [exact H|congruence..].
  - rewrite serialize_of_value, outcome_bind_lift by assumption.
    destruct (outcome (encodeCookieValue _ _ _ _)) as [t|e'] eqn:Henc.
    + split.
      * intros H. right. right. split; [assumption|]. now exists t.
      * intros [[H _]|[[_ H]|[_ (t' & [= <-] & H)]]];
          [congruence|discriminate|exact H].
    + split.
      * intros [= ->]. right. left. now split.
      * intros [[H _]|[[_ H]|[_ (t' & H & _)]]];
          [congruence|exact H|discriminate].
Qed.

(** X9: [parse] throws only on a header that is there and not empty, and
    what it throws is the unsecured decoder's exception: on the cookie's
    raw value, not empty, that every secret rejected; or, when the header
    has no cookie of the name, on the value every object inherits under
    that name. *)
Theorem parse_throws_inv n o d cookieHeader pOpts e :
  let c := (createCookie n o d).1 in
  let secrets := default [] (opt_secrets o) in
  let encrypt := default false (opt_encrypt o) in
  outcome (parse c cookieHeader pOpts) = Throw e ->
  exists header,
    cookieHeader = Some header
    /\ header <> ""
    /\ ((exists raw,
            cookie_parse header (spread (descriptor_options o) pOpts) !! n
              = Some raw
            /\ raw <> ""
            /\ Forall (rejected raw encrypt) secrets
            /\ UnsecuredJWT_decode raw = Throw e)
        \/ (exists v,
              cookie_parse header (spread (descriptor_options o) pOpts) !! n
                = None
              /\ obj_get n Object_prototype = Some v
              /\ UnsecuredJWT_decode_value v = Throw e)).
Proof.
  cbn zeta. unfold createCookie.
  destruct cookieHeader as [header|]; [|discriminate].
  destruct (String.eqb_spec header "") as [->|Hheader]; [discriminate|].
  intros Hthrow. exists header. split; [reflexivity|]. split; [assumption|].
  destruct (cookie_parse header (spread (descriptor_options o) pOpts) !! n)
    as [raw|] eqn:Hraw.
  - left. rewrite (parse_own _ _ _ _ raw) in Hthrow by assumption.
    destruct (String.eqb_spec raw "") as [_|Hne]; [discriminate|].
    apply decode_throws_inv in Hthrow as [Hall Hdec].
    exists raw. auto.
  - right. destruct (obj_get n Object_prototype) as [v|] eqn:Hv.
    + rewrite (parse_inherited _ _ _ _ v) in Hthrow by assumption.
      destruct (decode_value_outcome v (default false (opt_encrypt o))
                  (default [] (opt_secrets o)))
        as [[obj Hobj]|(e' & He' & Hdec)]; [congruence|].
      exists v. split; [reflexivity|]. split; [reflexivity|]. congruence.
    + rewrite parse_neither in Hthrow by assumption. discriminate.
Qed.

(** X11: the empty string goes through a descriptor unchanged: the header
    [serialize] makes of it, [parse] reads back as the empty string,
    without a call to the token library, whenever the cookie parser reads
    back what the cookie serializer wrote for the name. *)
Theorem serialize_parse_empty n o d sOpts pOpts env header :
  let c := (createCookie n o d).1 in
  reads_back n (spread (descriptor_options o) sOpts)
               (spread (descriptor_options o) pOpts) ->
  outcome (serialize c (VStr "") sOpts env) = Ok header ->
  parse c (Some header) pOpts = ([], Ok (VStr "")).
Proof.
  cbn zeta. intros Hback Hser.
  change (outcome (serialize (createCookie n o d).1 (VStr "") sOpts env))
    with (outcome (bind (ret "") (fun raw =>
            lift (cookie_serialize n raw
                    (spread (descriptor_options o) sOpts))))) in Hser.
  rewrite outcome_bind_lift in Hser. cbn in Hser.
  apply Hback in Hser as [Hheader Hraw].
  unfold createCookie. now rewrite (parse_own _ _ _ _ "") by assumption.
Qed.

(** X12: [isSigned] tells which encoder [serialize] uses: a signed
    descriptor has a first secret and asks for one token under it, signed
    or encrypted as [encrypt] says; an unsigned one has no secret and asks
    the unsecured encoder. *)
Theorem isSigned_selects_encoder n o d value claims sOpts env :
  let c := (createCookie n o d).1 in
  value <> VStr "" ->
  ProduceJWT_new value = Ok claims ->
  (isSigned c = true ->
   exists s0 rest,
     opt_secrets o = Some (s0 :: rest)
     /\ calls (serialize c value sOpts env) =
          [if default false (opt_encrypt o)
           then CallEncrypt (TextEncoder_encode s0)
           else CallSign (TextEncoder_encode s0)])
  /\ (isSigned c = false ->
      default [] (opt_secrets o) = []
      /\ calls (serialize c value sOpts env) = [CallUnsecuredEncode]).
Proof.
  cbn zeta. intros Hne Hnew.
  rewrite serialize_of_value, calls_bind_lift by assumption.
  destruct (encode_stamps_claims value claims (default [] (opt_secrets o))
              (default false (opt_encrypt o)) env Hnew) as (jwt & -> & _).
  unfold createCookie, createCookieFactory. cbn [fst isSigned calls].
  destruct (opt_secrets o) as [[|s0 rest]|]; cbn; split;
    try discriminate; intros _.
  - now split.
  - exists s0, rest. split; [reflexivity|].
    now destruct (default false (opt_encrypt o)).
  - now split.
Qed.

(** X14: the attributes a descriptor hands to the cookie library stack in
    three layers, the call's over the constructor's over the defaults
    [path: "/"] and [sameSite: "lax"]; a call without options hands over
    the descriptor's, and with no options anywhere the defaults are
    handed over. *)
Theorem attributes_stack o over :
  spread (descriptor_options o) over =
    spread cookie_defaults (spread (opt_attributes o) over)
  /\ spread (descriptor_options o) no_attributes = descriptor_options o
  /\ (opt_attributes o = no_attributes ->
      spread (descriptor_options o) no_attributes = cookie_defaults).
Proof.
  split; [apply spread_assoc|]. split; [apply spread_no_attributes|].
  intros Hnone. rewrite spread_no_attributes.
  unfold descriptor_options. now rewrite Hnone.
Qed.

(** X15: with a number as [maxAge], two reads of [expires] that are
    dates within the range of time values are as far apart as the clock
    readings they were made at, and such a read is not before its clock
    reading when [maxAge] is not negative. *)
Theorem expires_tracks_clock n o d maxAge env env' t t' :
  let c := (createCookie n o d).1 in
  opt_maxAge (opt_attributes o) = Defined maxAge ->
  expires c env = Some (ValidDate t) ->
  expires c env' = Some (ValidDate t') ->
  t' - t = Date_now env' - Date_now env
  /\ (0 <= maxAge -> Date_now env <= t).
Proof.
  cbn zeta. unfold createCookie, createCookieFactory. cbn [fst expires].
  rewrite descriptor_maxAge. intros ->. unfold new_Date.
  destruct (Z.abs (Date_now env + maxAge * 1000) <=? 8640000000000000);
    [|discriminate].
  destruct (Z.abs (Date_now env' + maxAge * 1000) <=? 8640000000000000);
    [|discriminate].
  intros [= <-] [= <-]. lia.
Qed.

(** X16: constructing a descriptor whose options have no [expires] leaves
    the diagnostics as they were; constructing one with [expires] adds at
    most one message, and after it any further construction under the
    same name adds none. *)
Theorem expires_warning_once n o o' d :
  let d1 := (createCookie n o d).2 in
  (attr_value (opt_expires (opt_attributes o)) = None -> d1 = d)
  /\ (length (console d1) <= S (length (console d)))%nat
  /\ (is_Some (attr_value (opt_expires (opt_attributes o))) ->
      (createCookie n o' d1).2 = d1).
Proof.
  cbn zeta. unfold createCookie, createCookieFactory. cbn [snd].
  rewrite !descriptor_expires.
  unfold warnOnceAboutExpiresCookie. set (msg := (_ +:+ _)%string).
  unfold warnOnce. split; [|split].
  - intros ->. reflexivity.
  - destruct (negb _); [lia|]. destruct (bool_decide _); [lia|].
    cbn. rewrite length_app. cbn. lia.
  - intros Hsome. rewrite (bool_decide_eq_true_2 _ Hsome). cbn [negb].
    assert (Hin : forall dd : Diagnostics,
              bool_decide (msg ∈ alreadyWarned dd) = true ->
              (if negb (bool_decide (is_Some
                     (attr_value (opt_expires (opt_attributes o')))))
               then dd
               else if bool_decide (msg ∈ alreadyWarned dd) then dd
               else {| alreadyWarned := {[msg]} ∪ alreadyWarned dd;
                       console := console dd ++ [msg] |}) = dd).
    { intros dd ->. now destruct (negb _). }
    destruct (bool_decide (msg ∈ alreadyWarned d)) eqn:Hd.
    + now apply Hin.
    + apply Hin. apply bool_decide_eq_true_2. cbn. set_solver.
Qed.

End DescriptorMore.

Section DescriptorRoundTrip.
Context {jose : Jose} {cookie : CookieLib} {laws : JoseLaws jose}.

(** X10: an encrypting descriptor reads back what it wrote: for a claims
    object [V] of JSON data whose stamped claims pass the decoders'
    check, the header [serialize] returns is parsed by the same
    descriptor to [V] with its [iat], whenever the cookie parser reads
    back what the cookie serializer wrote for the name and the token is
    not the empty string. *)
Theorem serialize_parse_secured n o d V sOpts pOpts env header :
  let c := (createCookie n o d).1 in
  let secrets := default [] (opt_secrets o) in
  isSigned c = true ->
  opt_encrypt o = Some true ->
  json_object V = true ->
  accepts_claims (stamped env V) = true ->
  reads_back n (spread (descriptor_options o) sOpts)
               (spread (descriptor_options o) pOpts) ->
  (forall t,
      outcome (encodeCookieValue (VObj V) secrets true env) = Ok t ->
      t <> "") ->
  outcome (serialize c (VObj V) sOpts env) = Ok header ->
  outcome (parse c (Some header) pOpts) = Ok (VObj (stamped env V)).
Proof.
  cbn zeta. intros Hsigned Hencrypt Hjson Hvalid Hback Htoken Hser.
  rewrite serialize_of_value, outcome_bind_lift in Hser by discriminate.
  rewrite Hencrypt in Hser. cbn [default from_option id] in Hser.
  destruct (outcome (encodeCookieValue _ _ _ _)) as [t|e] eqn:Henc;
    [|discriminate].
  apply Hback in Hser as [Hheader Hraw].
  specialize (Htoken t eq_refl).
  unfold createCookie in *.
  rewrite (parse_own _ _ _ _ t) by assumption.
  destruct (String.eqb_spec t "") as [->|_]; [contradiction|].
  rewrite Hencrypt. cbn [default from_option id].
  revert Hsigned. unfold createCookieFactory. cbn [fst isSigned].
  destruct (opt_secrets o) as [[|s0 rest]|] eqn:Hsecrets;
    cbn [default from_option id length Nat.ltb Nat.leb] in Henc |- *;
    try discriminate.
  intros _.
  apply (encode_encrypted_accepted V s0 rest) in Henc as (r & Hr & Hp);
    try assumption.
  rewrite (decode_first_accepted t _ [] s0 rest r)
    by (constructor || assumption).
  cbn. unfold payload_value. now rewrite Hp.
Qed.

End DescriptorRoundTrip.

(** ** The further properties on concrete inputs *)

Lemma plain_reads_back_session options options' :
  @reads_back Plain.cookie "session" options options'.
Proof.
  intros raw header. cbn. intros [= <-]. split; [discriminate|].
  unfold Plain.parse_header. cbn. apply lookup_singleton_eq.
Qed.

Lemma encode_rejected_value_witness :
  @encodeCookieValue Plain.jose (VStr "hello") ["s1"] false env0
    = ([], Throw (TypeError "JWT Claims Set MUST be an object")).
Proof.
  apply (encode_rejected_value (jose := Plain.jose)). reflexivity.
Defined.

Lemma encode_stamps_claims_witness :
  exists jwt,
    @encodeCookieValue Plain.jose
        (VObj [("iat", VNum 1); ("uid", VNum 42)]) ["s1"] false env0
      = ([CallSign (TextEncoder_encode "s1")],
         @SignJWT_sign Plain.jose jwt (TextEncoder_encode "s1"))
    /\ obj_get "iat" (jwt_payload jwt) = Some (VNum 5)
    /\ (forall k, k <> "iat" ->
        obj_get k (jwt_payload jwt)
          = obj_get k [("iat", VNum 1); ("uid", VNum 42)])
    /\ jwt_protectedHeader jwt = Some protected_header.
Proof.
  apply (encode_stamps_claims (jose := Plain.jose)
           (VObj [("iat", VNum 1); ("uid", VNum 42)])
           [("iat", VNum 1); ("uid", VNum 42)] ["s1"] false env0).
  reflexivity.
Defined.

Lemma decode_after_rotation_witness :
  outcome (@decodeCookieValue Plain.jose encrypted_uid42
             ["new"; "old"; "older"] true)
    = Ok (VObj uid42_iat5).
Proof.
  apply (decode_after_rotation (laws := plain_laws 5)
           uid42 "old" [] env0 encrypted_uid42 ["new"] ["older"]).
  - reflexivity.
  - reflexivity.
  - vm_compute. reflexivity.
  - constructor; [|constructor].
    exists (JOSEError "ERR_JWE_DECRYPTION_FAILED").
    vm_compute. reflexivity.
Defined.

Lemma decode_append_secrets_witness :
  @decodeCookieValue Plain.jose signed_uid42 (["new"; "old"] ++ ["a"; "b"]) false
    = @decodeCookieValue Plain.jose signed_uid42 ["new"; "old"] false.
Proof.
  apply (decode_append_secrets (jose := Plain.jose)).
  right. left.
  exists {| payload := [("uid", VNum 42); ("iat", VNum 5)];
            protectedHeader := [("alg", VStr "HS256")] |}.
  vm_compute. reflexivity.
Defined.

Lemma parse_throws_inv_witness :
  exists header,
    Some "other=1" = Some header
    /\ header <> ""
    /\ ((exists raw,
            Plain.parse_header header
              (spread (@descriptor_options no_options) no_attributes)
              !! "toString" = Some raw
            /\ raw <> ""
            /\ Forall (@rejected Plain.jose raw false) []
            /\ Plain.unsecured_decode 5 raw
               = Throw (JOSEError "ERR_JWT_INVALID"))
        \/ (exists v,
              Plain.parse_header header
                (spread (@descriptor_options no_options) no_attributes)
                !! "toString" = None
              /\ obj_get "toString" Object_prototype = Some v
              /\ @UnsecuredJWT_decode_value Plain.jose v
                 = Throw (JOSEError "ERR_JWT_INVALID"))).
Proof.
  apply (parse_throws_inv (jose := Plain.jose) (cookie := Plain.cookie)
           "toString" no_options no_diagnostics (Some "other=1")
           no_attributes (JOSEError "ERR_JWT_INVALID")).
  vm_compute. reflexivity.
Defined.

Lemma serialize_parse_secured_witness :
  outcome
    (parse (plain_cookie "session" encrypting_options)
       (Some (token_of
                (serialize (plain_cookie "session" encrypting_options)
                   (VObj uid42) no_attributes env0)))
       no_attributes)
    = Ok (VObj uid42_iat5).
Proof.
  apply (serialize_parse_secured (jose := Plain.jose) (cookie := Plain.cookie)
           (laws := plain_laws 5)
           "session" encrypting_options no_diagnostics uid42
           no_attributes no_attributes env0).
  - reflexivity.
  - reflexivity.
  - reflexivity.
  - reflexivity.
  - apply plain_reads_back_session.
  - intros t Ht. vm_compute in Ht. injection Ht as <-. discriminate.
  - vm_compute. reflexivity.
Defined.

Lemma serialize_parse_empty_witness :
  parse (plain_cookie "session" signing_options)
    (Some (token_of
             (serialize (plain_cookie "session" signing_options)
                (VStr "") no_attributes env0)))
    no_attributes
    = ([], Ok (VStr "")).
Proof.
  apply (serialize_parse_empty (jose := Plain.jose) (cookie := Plain.cookie)
           "session" signing_options no_diagnostics
           no_attributes no_attributes env0).
  - apply plain_reads_back_session.
  - vm_compute. reflexivity.
Defined.

Lemma isSigned_selects_encoder_witness :
  (exists s0 rest,
      opt_secrets signing_options = Some (s0 :: rest)
      /\ calls (serialize (plain_cookie "session" signing_options)
                  (VObj uid42) no_attributes env0)
         = [CallSign (TextEncoder_encode s0)])
  /\ calls (serialize (plain_cookie "session" no_options)
              (VObj uid42) no_attributes env0)
     = [CallUnsecuredEncode].
Proof.
  split.
  - apply (isSigned_selects_encoder (jose := Plain.jose)
             (cookie := Plain.cookie)
             "session" signing_options no_diagnostics (VObj uid42) uid42
             no_attributes env0); [discriminate|reflexivity|reflexivity].
  - apply (isSigned_selects_encoder (jose := Plain.jose)
             (cookie := Plain.cookie)
             "session" no_options no_diagnostics (VObj uid42) uid42
             no_attributes env0); [discriminate|reflexivity|reflexivity].
Defined.

Lemma attributes_stack_witness :
  spread (@descriptor_options no_options) no_attributes = cookie_defaults.
Proof.
  apply (attributes_stack no_options no_attributes). reflexivity.
Defined.

Lemma expires_tracks_clock_witness :
  3606000 - 3605000 = Date_now env1 - Date_now env0
  /\ (0 <= 3600 -> Date_now env0 <= 3605000).
Proof.
  apply (expires_tracks_clock (jose := Plain.jose) (cookie := Plain.cookie)
           "session" rolling_options no_diagnostics 3600 env0 env1);
    reflexivity.
Defined.

Lemma expires_warning_once_witness :
  (@createCookie Plain.jose Plain.cookie "session" no_options no_diagnostics).2
    = no_diagnostics
  /\ (@createCookie Plain.jose Plain.cookie "session" rolling_options
        (@createCookie Plain.jose Plain.cookie "session" fixed_options
           no_diagnostics).2).2
     = (@createCookie Plain.jose Plain.cookie "session" fixed_options
          no_diagnostics).2.
Proof.
  destruct (expires_warning_once (jose := Plain.jose) (cookie := Plain.cookie)
              "session" no_options no_options no_diagnostics)
    as [Hquiet _].
  destruct (expires_warning_once (jose := Plain.jose) (cookie := Plain.cookie)
              "session" fixed_options rolling_options no_diagnostics)
    as (_ & _ & Honce).
  split.
  - apply Hquiet. reflexivity.
  - apply Honce. exists (ValidDate 77). reflexivity.
Defined.

Lemma decode_only_accepting_secret_witness :
  outcome (@decodeCookieValue Plain.jose signed_uid42 ["a"; "b"; "old"] false)
    = Ok (VObj [("uid", VNum 42); ("iat", VNum 5)])
  /\ outcome (@decodeCookieValue Plain.jose signed_uid42 ["old"; "b"; "a"] false)
    = Ok (VObj [("uid", VNum 42); ("iat", VNum 5)]).
Proof.
  assert (Ha : "a"%string <> "old"%string ->
            @rejected Plain.jose signed_uid42 false "a").
  { intros _. exists (JOSEError "ERR_JWS_SIGNATURE_VERIFICATION_FAILED").
    vm_compute. reflexivity. }
  assert (Hb : "b"%string <> "old"%string ->
            @rejected Plain.jose signed_uid42 false "b").
  { intros _. exists (JOSEError "ERR_JWS_SIGNATURE_VERIFICATION_FAILED").
    vm_compute. reflexivity. }
  assert (Hold : "old"%string <> "old"%string ->
            @rejected Plain.jose signed_uid42 false "old").
  { intros Hne. now contradiction Hne. }
  split.
  - apply (decode_only_accepting_secret (jose := Plain.jose)
             signed_uid42 false ["a"; "b"; "old"] "old"
             {| payload := [("uid", VNum 42); ("iat", VNum 5)];
                protectedHeader := [("alg", VStr "HS256")] |}).
    + right. right. now left.
    + repeat constructor; assumption.
    + vm_compute. reflexivity.
  - apply (decode_only_accepting_secret (jose := Plain.jose)
             signed_uid42 false ["old"; "b"; "a"] "old"
             {| payload := [("uid", VNum 42); ("iat", VNum 5)];
                protectedHeader := [("alg", VStr "HS256")] |}).
    + now left.
    + repeat constructor; assumption.
    + vm_compute. reflexivity.
Defined.
